(** * Dataset normalisation and mixing of [sft-instruction-mpt-7b.py]

    The script loads two instruction datasets, rewrites every record of the
    second one (a raw conversation string) into a [prompt]/[response] pair,
    concatenates both tables and hands a formatting function to the trainer.
    This development embeds that part of the script (lines 61-126) and
    proves the properties the specification states about it. *)

From Stdlib Require Import List Bool Arith Lia.
From Stdlib Require Import Strings.Ascii Strings.String.
Import ListNotations.

Open Scope list_scope.
Open Scope string_scope.

(* ================================================================== *)
(** * Python strings *)
(* ================================================================== *)

Module PyStr.

(** [s.startswith(p)] *)
Fixpoint starts_with (p s : string) : bool :=
  match p with
  | EmptyString => true
  | String a p' =>
      match s with
      | EmptyString => false
      | String b s' => Ascii.eqb a b && starts_with p' s'
      end
  end.

(** [s[n:]] *)
Fixpoint drop (n : nat) (s : string) : string :=
  match n with
  | 0 => s
  | S n' => match s with
            | EmptyString => EmptyString
            | String _ s' => drop n' s'
            end
  end.

(** [s[:n]] *)
Fixpoint take (n : nat) (s : string) : string :=
  match n with
  | 0 => EmptyString
  | S n' => match s with
            | EmptyString => EmptyString
            | String c s' => String c (take n' s')
            end
  end.

(** [s.endswith(p)] *)
Definition ends_with (p s : string) : bool :=
  Nat.leb (length p) (length s) && String.eqb (drop (length s - length p) s) p.

(** [s.partition(sep)], as an option: the text before and the text after
    the leftmost occurrence of [sep] in [s], or [None] when there is
    none.  This is the search step of [str.split]. *)
Fixpoint cut (sep s : string) {struct s} : option (string * string) :=
  if starts_with sep s then Some (EmptyString, drop (length sep) s)
  else
    match s with
    | EmptyString => None
    | String c s' =>
        match cut sep s' with
        | Some (a, b) => Some (String c a, b)
        | None => None
        end
    end.

(** The pieces of [s.split(sep)] for a non-empty [sep]: cut at the
    leftmost occurrence, continue behind it.  Every cut consumes at least
    one character, so [length s] rounds are enough. *)
Fixpoint split_fuel (fuel : nat) (sep s : string) : list string :=
  match fuel with
  | 0 => [s]
  | S fuel' =>
      match cut sep s with
      | None => [s]
      | Some (a, b) => a :: split_fuel fuel' sep b
      end
  end.

Definition pieces (sep s : string) : list string :=
  split_fuel (length s) sep s.

(** The first of the pieces: [s.split(sep)[0]]. *)
Definition before (sep s : string) : string :=
  match cut sep s with
  | Some (a, _) => a
  | None => s
  end.

(** Number of positions of [s] at which [sep] starts. *)
Fixpoint occurrences (sep s : string) : nat :=
  (if starts_with sep s then 1 else 0) +
  match s with
  | EmptyString => 0
  | String _ s' => occurrences sep s'
  end.

(** [sep in s] as a proposition. *)
Definition occurs (sep s : string) : Prop :=
  exists a b, s = a ++ sep ++ b.

(** No proper non-empty suffix of [sep] is a prefix of [sep]: two
    occurrences of [sep] never overlap. *)
Definition unbordered (sep : string) : bool :=
  forallb (fun k => negb (starts_with (drop k sep) sep))
          (seq 1 (length sep - 1)).

(** Some occurrence of [sep] in [x ++ y] begins in [x] and ends in [y]. *)
Definition straddles (sep x y : string) : bool :=
  existsb (fun k => ends_with (take k sep) x && starts_with (drop k sep) y)
          (seq 1 (length sep - 1)).

End PyStr.

(* ================================================================== *)
(** * Python exceptions *)
(* ================================================================== *)

(** The exceptions the modelled lines can raise.  [MalformedRecord] is the
    error kind the specification names; no line of the script raises it. *)
Inductive exn : Type :=
| IndexError
| KeyError
| ValueError
| MalformedRecord.

Definition result (A : Type) : Type := (exn + A)%type.

Definition ret {A : Type} (a : A) : result A := inr a.
Definition raise {A : Type} (e : exn) : result A := inl e.

Definition bind {A B : Type} (m : result A) (k : A -> result B) : result B :=
  match m with
  | inl e => inl e
  | inr a => k a
  end.

Notation "x <- m ;; k" := (bind m (fun x => k))
  (at level 61, m at next level, right associativity).

(** [l[i]] on a Python list. *)
Definition item {A : Type} (l : list A) (i : nat) : result A :=
  match nth_error l i with
  | Some a => ret a
  | None => raise IndexError
  end.

(** [s.split(sep)]: an empty separator is a [ValueError]. *)
Definition split (s sep : string) : result (list string) :=
  match sep with
  | EmptyString => raise ValueError
  | _ => ret (PyStr.pieces sep s)
  end.

(* ================================================================== *)
(** * The script *)
(* ================================================================== *)

Definition HUMAN : string := "### Human: ".
Definition ASSISTANT : string := "### Assistant: ".

(** Line 79. *)
Definition PREAMBLE : string :=
  "Below is an instruction that describes a task. Write a response that appropriately completes the request. ### Instruction: ".

(** Line 81. *)
Definition RESPONSE_CUE : string := " ### Response: ".

Definition LF : string := String (ascii_of_nat 10) EmptyString.

Record Example : Type := mkExample { prompt : string; response : string }.

(** Line 77: [conversation.split("### Human: ")[1].split("### Assistant: ")[0]] *)
Definition instruction_body (conversation : string) : result string :=
  l <- split conversation HUMAN ;;
  x <- item l 1 ;;
  m <- split x ASSISTANT ;;
  item m 0.

(** Lines 77-82. *)
Definition extract_prompt (conversation : string) : result string :=
  body <- instruction_body conversation ;;
  ret (PREAMBLE ++ body ++ RESPONSE_CUE).

(** Line 84: [conversation.split("### Assistant: ")[1].split("### Human: ")[0]] *)
Definition extract_response (conversation : string) : result string :=
  l <- split conversation ASSISTANT ;;
  x <- item l 1 ;;
  m <- split x HUMAN ;;
  item m 0.

(** The body of the loop of lines 74-85 on one record, without the two
    accumulators: the specification's [normalize]. *)
Definition normalize (conversation : string) : result Example :=
  p <- extract_prompt conversation ;;
  r <- extract_response conversation ;;
  ret (mkExample p r).

(** ** The loop with its accumulators (lines 72-85) *)

Record acc : Type := mkAcc { prompts : list string; responses : list string }.

(** Outcome of running statements on the accumulators: they end normally in
    a new state, or an exception escapes and leaves the state it found. *)
Inductive outcome : Type :=
| Done (st : acc)
| Raised (e : exn) (st : acc).

(** One iteration: lines 77-85 on [conversation]. *)
Definition loop_body (st : acc) (conversation : string) : outcome :=
  match extract_prompt conversation with
  | inl e => Raised e st
  | inr p =>
      let st1 := mkAcc (prompts st ++ [p])%list (responses st) in
      match extract_response conversation with
      | inl e => Raised e st1
      | inr r => Done (mkAcc (prompts st1) (responses st1 ++ [r])%list)
      end
  end.

(** The iterations on the records [texts], one after the other. *)
Fixpoint loop (st : acc) (texts : list string) : outcome :=
  match texts with
  | [] => Done st
  | t :: texts' =>
      match loop_body st t with
      | Done st' => loop st' texts'
      | Raised e st' => Raised e st'
      end
  end.

(** ** Tables

    A dataset is an Arrow table: an ordered list of named columns, all of
    the same length.  Every cell of the columns used here is a string. *)

Definition Dataset : Type := list (string * list string).

Definition column_names (ds : Dataset) : list string := map fst ds.

(** [len(ds)] *)
Definition num_rows (ds : Dataset) : nat :=
  match ds with
  | [] => 0
  | (_, cells) :: _ => List.length cells
  end.

(** [ds[name]]: the column as a list. *)
Fixpoint column (ds : Dataset) (name : string) : result (list string) :=
  match ds with
  | [] => raise KeyError
  | (n, cells) :: ds' => if String.eqb n name then ret cells else column ds' name
  end.

Definition mem (name : string) (names : list string) : bool :=
  existsb (String.eqb name) names.

(** [ds.add_column(name, cells)]: a new last column; a name already in the
    table or a column of another length is refused. *)
Definition add_column (ds : Dataset) (name : string) (cells : list string)
  : result Dataset :=
  if mem name (column_names ds) then raise ValueError
  else if negb (Nat.eqb (List.length cells) (num_rows ds)) then raise ValueError
  else ret (ds ++ [(name, cells)])%list.

(** [ds.remove_columns(names)]: every name must be a column of [ds]. *)
Definition remove_columns (ds : Dataset) (names : list string) : result Dataset :=
  if forallb (fun n => mem n (column_names ds)) names
  then ret (filter (fun c => negb (mem (fst c) names)) ds)
  else raise ValueError.

(** Rows of the second table under the rows of the first, column by
    column. *)
Fixpoint stack (d1 d2 : Dataset) : Dataset :=
  match d1, d2 with
  | (n, c1) :: d1', (_, c2) :: d2' => (n, (c1 ++ c2)%list) :: stack d1' d2'
  | _, _ => []
  end.

(** [concatenate_datasets([d1, d2])] for tables with the same columns in
    the same order, which is how the script calls it (line 108).  What the
    library does with tables whose columns differ is not modelled: no table
    is returned for them. *)
Definition concatenate_datasets (d1 d2 : Dataset) : result Dataset :=
  if list_eq_dec string_dec (column_names d1) (column_names d2)
  then ret (stack d1 d2)
  else raise ValueError.

(** Line 75: [ds[i]["text"]]. *)
Definition row_text (ds : Dataset) (i : nat) : result string :=
  cells <- column ds "text" ;;
  item cells i.

(** Lines 74-85: [n] rounds of [for i in range(len(ds))], from round [i]
    on. *)
Fixpoint loop_range (ds : Dataset) (st : acc) (i n : nat) : outcome :=
  match n with
  | 0 => Done st
  | S n' =>
      match row_text ds i with
      | inl e => Raised e st
      | inr conversation =>
          match loop_body st conversation with
          | Done st' => loop_range ds st' (S i) n'
          | Raised e st' => Raised e st'
          end
      end
  end.

(** Lines 72-85: the two lists the loop leaves behind. *)
Definition extract_columns (ds : Dataset) : result (list string * list string) :=
  match loop_range ds (mkAcc [] []) 0 (num_rows ds) with
  | Done st => ret (prompts st, responses st)
  | Raised e _ => raise e
  end.

(** Lines 95-101: the columns other than [prompt] and [response]. *)
Definition old_columns (ds : Dataset) : list string :=
  filter (fun col => negb (mem col ["prompt"; "response"])) (column_names ds).

(** Lines 74-101: the second dataset in the shape of the first. *)
Definition normalize_dataset (raw : Dataset) : result Dataset :=
  pr <- extract_columns raw ;;
  d1 <- add_column raw "prompt" (fst pr) ;;
  d2 <- add_column d1 "response" (snd pr) ;;
  remove_columns d2 (old_columns d2).

(** The cells of row [i], column by column. *)
Fixpoint cells_at (ds : Dataset) (i : nat) : result (list (string * string)) :=
  match ds with
  | [] => ret []
  | (n, cells) :: ds' =>
      c <- item cells i ;;
      rest <- cells_at ds' i ;;
      ret ((n, c) :: rest)
  end.

(** [ds[i]]: the row as a dict; an [i] that is not a row number is an
    [IndexError]. *)
Definition row (ds : Dataset) (i : nat) : result (list (string * string)) :=
  if Nat.ltb i (num_rows ds) then cells_at ds i else raise IndexError.

(** Lines 74-108: the specification's [mix].  Line 105 prints row 0 of the
    reshaped table, which is an [IndexError] when the table has no rows. *)
Definition mix (train_dataset dataset_openassistant : Dataset) : result Dataset :=
  b <- normalize_dataset dataset_openassistant ;;
  _ <- row b 0 ;;
  concatenate_datasets train_dataset b.

(** ** The formatting function (lines 121-126) *)

(** Lines 123-125: [n] rounds from round [i] on.  Each round looks both
    columns up in the batch, the prompt first. *)
Fixpoint format_loop (dataset : Dataset) (i n : nat) : result (list string) :=
  match n with
  | 0 => ret []
  | S n' =>
      ps <- column dataset "prompt" ;;
      p <- item ps i ;;
      rs <- column dataset "response" ;;
      r <- item rs i ;;
      rest <- format_loop dataset (S i) n' ;;
      ret ((p ++ LF ++ r) :: rest)
  end.

Definition formatting_prompts_func (dataset : Dataset) : result (list string) :=
  ps <- column dataset "prompt" ;;
  format_loop dataset 0 (List.length ps).

(** The same rounds on two columns at hand. *)
Fixpoint format_rows (ps rs : list string) (i n : nat) : result (list string) :=
  match n with
  | 0 => ret []
  | S n' =>
      p <- item ps i ;;
      r <- item rs i ;;
      rest <- format_rows ps rs (S i) n' ;;
      ret ((p ++ LF ++ r) :: rest)
  end.

(** A list of examples as a two-column table, and the text of one
    example. *)
Definition table_of (es : list Example) : Dataset :=
  [("prompt", map prompt es); ("response", map response es)].

Definition format (e : Example) : string := prompt e ++ LF ++ response e.

(** The rows of a table with columns [prompt] and [response]. *)
Definition examples (ds : Dataset) : result (list Example) :=
  ps <- column ds "prompt" ;;
  rs <- column ds "response" ;;
  ret (map (fun pr => mkExample (fst pr) (snd pr)) (combine ps rs)).

(** ** Vocabulary of the statements *)

(** Both turn markers occur in the record. *)
Definition normalizable (conversation : string) : bool :=
  Nat.ltb 0 (PyStr.occurrences HUMAN conversation) &&
  Nat.ltb 0 (PyStr.occurrences ASSISTANT conversation).

(** [normalize] on every record, in order; the first failure ends it. *)
Fixpoint normalize_all (texts : list string) : result (list Example) :=
  match texts with
  | [] => ret []
  | t :: texts' =>
      e <- normalize t ;;
      es <- normalize_all texts' ;;
      ret (e :: es)
  end.

(** The invariant the specification's data model states for an [Example]:
    both fields non-empty, [prompt] ending with the response cue. *)
Definition Example_invariant (e : Example) : bool :=
  negb (String.eqb (prompt e) "") &&
  negb (String.eqb (response e) "") &&
  PyStr.ends_with RESPONSE_CUE (prompt e).

(** Every column has as many cells as the table has rows. *)
Definition table_ok (ds : Dataset) : bool :=
  forallb (fun c => Nat.eqb (List.length (snd c)) (num_rows ds)) ds.

(** A table the loop and lines 87-101 accept: a well-formed table whose
    columns do not yet include [prompt] or [response]. *)
Definition raw_ok (ds : Dataset) : bool :=
  table_ok ds &&
  negb (mem "prompt" (column_names ds)) &&
  negb (mem "response" (column_names ds)).

(* ================================================================== *)
(** * Runs on concrete records *)
(* ================================================================== *)

Example normalize_one_pair :
  normalize "### Human: Hi### Assistant: Hello" =
  inr (mkExample (PREAMBLE ++ "Hi" ++ RESPONSE_CUE) "Hello").
Proof. reflexivity. Qed.

Example normalize_no_marker : normalize "hello" = inl IndexError.
Proof. reflexivity. Qed.

(* ================================================================== *)
(** * Facts about strings *)
(* ================================================================== *)

Import PyStr.

Lemma append_empty_r (s : string) : s ++ "" = s.
Proof. induction s as [|c s IH]; simpl; [reflexivity | now rewrite IH]. Qed.

Lemma append_assoc (a b c : string) : (a ++ b) ++ c = a ++ b ++ c.
Proof. induction a as [|x a IH]; simpl; [reflexivity | now rewrite IH]. Qed.

Lemma length_append (a b : string) : length (a ++ b) = length a + length b.
Proof. induction a as [|x a IH]; simpl; [reflexivity | now rewrite IH]. Qed.

Lemma length_zero (s : string) : length s = 0 -> s = "".
Proof. destruct s; simpl; [reflexivity | discriminate]. Qed.

Lemma append_inv_head (a b c : string) : a ++ b = a ++ c -> b = c.
Proof.
  induction a as [|x a IH]; simpl; intros H; [exact H|].
  injection H as H. now apply IH.
Qed.

(** Two ways of cutting the same string in two: one cut point is left of
    the other, and the text between them is shared. *)
Lemma append_eq_split (a b c d : string) :
  a ++ b = c ++ d ->
  (exists w, c = a ++ w /\ b = w ++ d) \/
  (exists w, a = c ++ w /\ d = w ++ b).
Proof.
  revert c. induction a as [|x a IH]; intros c H; simpl in H.
  - left. exists c. split; [reflexivity | exact H].
  - destruct c as [|y c]; simpl in H.
    + right. exists (String x a). split; [reflexivity | now rewrite <- H].
    + injection H as Hxy H. subst y.
      destruct (IH c H) as [[w [H1 H2]] | [w [H1 H2]]].
      * left. exists w. simpl. now rewrite H1.
      * right. exists w. simpl. now rewrite H1.
Qed.

Lemma append_eq_length (a b c d : string) :
  a ++ b = c ++ d -> length a = length c -> a = c /\ b = d.
Proof.
  revert c. induction a as [|x a IH]; intros [|y c] H L; simpl in *;
    try discriminate.
  - now split.
  - injection H as Hxy H. injection L as L. subst y.
    destruct (IH c H L) as [-> ->]. now split.
Qed.

Lemma starts_with_append (p t : string) : starts_with p (p ++ t) = true.
Proof.
  induction p as [|c p IH]; simpl; [reflexivity|].
  now rewrite Ascii.eqb_refl, IH.
Qed.

Lemma starts_with_iff (p s : string) :
  starts_with p s = true <-> exists t, s = p ++ t.
Proof.
  split.
  - revert s. induction p as [|c p IH]; intros s H; simpl in H.
    + now exists s.
    + destruct s as [|d s]; [discriminate|].
      apply andb_true_iff in H. destruct H as [Hc Hp].
      apply Ascii.eqb_eq in Hc. subst d.
      destruct (IH s Hp) as [t ->]. now exists t.
  - intros [t ->]. apply starts_with_append.
Qed.

Lemma drop_append (a b : string) : drop (length a) (a ++ b) = b.
Proof. induction a as [|x a IH]; simpl; [reflexivity | exact IH]. Qed.

Lemma take_append (a b : string) : take (length a) (a ++ b) = a.
Proof. induction a as [|x a IH]; simpl; [reflexivity | now rewrite IH]. Qed.

Lemma take_drop (n : nat) (s : string) : take n s ++ drop n s = s.
Proof.
  revert s. induction n as [|n IH]; intros s; simpl; [reflexivity|].
  destruct s as [|c s]; simpl; [reflexivity | now rewrite IH].
Qed.

Lemma length_drop (n : nat) (s : string) : length (drop n s) = length s - n.
Proof.
  revert s. induction n as [|n IH]; intros s; simpl; [lia|].
  destruct s as [|c s]; simpl; [reflexivity | apply IH].
Qed.

Lemma ends_with_iff (p s : string) :
  ends_with p s = true <-> exists a, s = a ++ p.
Proof.
  unfold ends_with. split.
  - intros H. apply andb_true_iff in H. destruct H as [_ H].
    apply String.eqb_eq in H.
    remember (length s - length p) as n eqn:Hn. clear Hn.
    exists (take n s). rewrite <- H. symmetry. apply take_drop.
  - intros [a ->]. rewrite length_append.
    replace (length a + length p - length p) with (length a) by lia.
    rewrite drop_append, String.eqb_refl.
    apply andb_true_iff. split; [apply Nat.leb_le; lia | reflexivity].
Qed.

Lemma ends_with_append (a p : string) : ends_with p (a ++ p) = true.
Proof. apply ends_with_iff. now exists a. Qed.

(** ** The leftmost occurrence *)

Lemma cut_sound (sep s a b : string) :
  cut sep s = Some (a, b) -> s = a ++ sep ++ b.
Proof.
  revert a b. induction s as [|c s IH]; intros a b H; simpl in H.
  - destruct (starts_with sep "") eqn:E; [|discriminate].
    injection H as <- <-.
    destruct sep; [reflexivity | discriminate].
  - destruct (starts_with sep (String c s)) eqn:E.
    + injection H as <- <-. simpl.
      apply starts_with_iff in E. destruct E as [t E].
      rewrite E. now rewrite drop_append.
    + destruct (cut sep s) as [[a' b']|] eqn:C; [|discriminate].
      injection H as <- <-. simpl. now rewrite (IH a' b' eq_refl).
Qed.

Lemma cut_complete (sep s : string) :
  occurs sep s -> cut sep s <> None.
Proof.
  intros [a [b ->]]. induction a as [|c a IH]; simpl.
  - assert (E : starts_with sep (sep ++ b) = true) by apply starts_with_append.
    destruct (sep ++ b) as [|d t] eqn:D; simpl; rewrite E; discriminate.
  - destruct (starts_with sep (String c (a ++ sep ++ b))); [discriminate|].
    destruct (cut sep (a ++ sep ++ b)) as [[a' b']|]; [discriminate|].
    now elim IH.
Qed.

Lemma cut_None_iff (sep s : string) :
  cut sep s = None <-> ~ occurs sep s.
Proof.
  split.
  - intros H O. now apply (cut_complete sep s O).
  - intros N. destruct (cut sep s) as [[a b]|] eqn:C; [|reflexivity].
    elim N. exists a, b. now apply cut_sound.
Qed.

Lemma occurrences_zero_iff (sep s : string) :
  occurrences sep s = 0 <-> ~ occurs sep s.
Proof.
  split.
  - intros H [a [b ->]]. induction a as [|c a IH]; simpl in H.
    + assert (E : starts_with sep (sep ++ b) = true) by apply starts_with_append.
      destruct (sep ++ b) as [|d t] eqn:D; simpl in H; rewrite E in H;
        discriminate.
    + destruct (starts_with sep (String c (a ++ sep ++ b)));
        [discriminate | apply IH; exact H].
  - induction s as [|c s IH]; intros N; simpl.
    + destruct (starts_with sep "") eqn:E; [|reflexivity].
      elim N. apply starts_with_iff in E. destruct E as [t E].
      exists "", t. exact E.
    + destruct (starts_with sep (String c s)) eqn:E.
      * elim N. apply starts_with_iff in E. destruct E as [t E].
        exists "", t. exact E.
      * apply IH. intros [a [b ->]]. apply N.
        exists (String c a), b. reflexivity.
Qed.

Lemma cut_unfold (sep s : string) :
  cut sep s =
  if starts_with sep s then Some ("", drop (length sep) s)
  else match s with
       | EmptyString => None
       | String c s' =>
           match cut sep s' with
           | Some (a, b) => Some (String c a, b)
           | None => None
           end
       end.
Proof. destruct s; reflexivity. Qed.

Lemma occurs_tail (sep : string) (c : ascii) (x : string) :
  occurs sep x -> occurs sep (String c x).
Proof. intros [a [b ->]]. exists (String c a), b. reflexivity. Qed.

Lemma occurs_middle (sep a b : string) : occurs sep (a ++ sep ++ b).
Proof. now exists a, b. Qed.

Lemma unbordered_spec (sep : string) (k : nat) :
  unbordered sep = true -> 0 < k < length sep ->
  starts_with (drop k sep) sep = false.
Proof.
  unfold unbordered. intros U Hk.
  rewrite forallb_forall in U.
  apply negb_true_iff. apply U. apply in_seq. lia.
Qed.

(** With an unbordered separator, the occurrence behind separator-free
    text is the leftmost one. *)
Lemma starts_with_late (sep x y : string) :
  unbordered sep = true -> ~ occurs sep x -> x <> "" ->
  starts_with sep (x ++ sep ++ y) = false.
Proof.
  intros U N Hx.
  destruct (starts_with sep (x ++ sep ++ y)) eqn:E; [|reflexivity].
  exfalso. apply starts_with_iff in E. destruct E as [t E].
  destruct (append_eq_split _ _ _ _ E) as [[w [H1 H2]] | [w [H1 H2]]].
  - (* sep = x ++ w *)
    assert (Lw : length sep = length x + length w)
      by (rewrite H1 at 1; apply length_append).
    assert (Lx : 0 < length x)
      by (destruct x; [now elim Hx | simpl; lia]).
    destruct w as [|d w].
    + apply N. rewrite append_empty_r in H1. subst x. exists "", "".
      simpl. now rewrite append_empty_r.
    + simpl in Lw.
      assert (D : drop (length x) sep = String d w)
        by (rewrite H1; apply drop_append).
      assert (P : starts_with (String d w) sep = true).
      { apply starts_with_iff.
        destruct (append_eq_split _ _ _ _ H2) as [[v [H3 H4]] | [v [H3 H4]]].
        - apply (f_equal length) in H3. rewrite length_append in H3.
          simpl in H3. lia.
        - now exists v. }
      rewrite <- D in P.
      rewrite (unbordered_spec sep (length x) U) in P; [discriminate | lia].
  - apply N. rewrite H1. exists "", w. reflexivity.
Qed.

Lemma cut_at (sep x y : string) :
  unbordered sep = true -> ~ occurs sep x ->
  cut sep (x ++ sep ++ y) = Some (x, y).
Proof.
  intros U. induction x as [|c x IH]; intros N.
  - rewrite cut_unfold. simpl. now rewrite starts_with_append, drop_append.
  - rewrite cut_unfold.
    rewrite (starts_with_late sep (String c x) y U N) by discriminate.
    simpl. rewrite IH; [reflexivity|].
    intros O. apply N. now apply occurs_tail.
Qed.

(** An occurrence in a concatenation lies in one of the two parts or
    straddles the seam. *)
Lemma occurs_append (sep x y : string) :
  occurs sep (x ++ y) ->
  occurs sep x \/ occurs sep y \/ straddles sep x y = true.
Proof.
  intros [a [b E]].
  destruct (append_eq_split _ _ _ _ E) as [[w [H1 H2]] | [w [H1 H2]]].
  - (* a = x ++ w *) right. left. exists w, b. exact H2.
  - (* x = a ++ w, sep ++ b = w ++ y *)
    destruct (append_eq_split _ _ _ _ H2) as [[v [H3 H4]] | [v [H3 H4]]].
    + (* w = sep ++ v *) left. exists a, v. now rewrite H1, H3.
    + (* sep = w ++ v, y = v ++ b *)
      destruct w as [|d w].
      * right. left. simpl in H3. subst v. exists "", b. exact H4.
      * destruct v as [|e v].
        -- left. rewrite append_empty_r in H3. subst sep.
           exists a, "". now rewrite append_empty_r.
        -- right. right. unfold straddles. apply existsb_exists.
           exists (length (String d w)). split.
           ++ apply in_seq. rewrite H3, length_append. simpl. lia.
           ++ rewrite H3, take_append, drop_append.
              rewrite H1, H4, ends_with_append, starts_with_append.
              reflexivity.
Qed.

Lemma not_occurs_append (sep x y : string) :
  ~ occurs sep x -> ~ occurs sep y -> straddles sep x y = false ->
  ~ occurs sep (x ++ y).
Proof.
  intros Nx Ny S O.
  destruct (occurs_append sep x y O) as [H | [H | H]];
    [now apply Nx | now apply Ny | congruence].
Qed.

(** ** [split] *)

Lemma cut_nonempty_empty (sep : string) : sep <> "" -> cut sep "" = None.
Proof. destruct sep; [intros H; now elim H | reflexivity]. Qed.

Lemma cut_shorter (sep s a b : string) :
  sep <> "" -> cut sep s = Some (a, b) -> length b < length s.
Proof.
  intros Hs C. apply cut_sound in C. subst s.
  rewrite !length_append. destruct sep; [now elim Hs | simpl; lia].
Qed.

Lemma split_fuel_enough (sep : string) (n m : nat) (s : string) :
  sep <> "" -> length s <= n -> length s <= m ->
  split_fuel n sep s = split_fuel m sep s.
Proof.
  intros Hs. revert m s.
  induction n as [|n IH]; intros [|m] s Ln Lm; simpl; try reflexivity.
  - assert (s = "") by (apply length_zero; lia). subst s.
    now rewrite (cut_nonempty_empty sep Hs).
  - assert (s = "") by (apply length_zero; lia). subst s.
    now rewrite (cut_nonempty_empty sep Hs).
  - destruct (cut sep s) as [[a b]|] eqn:C; [|reflexivity].
    pose proof (cut_shorter sep s a b Hs C).
    f_equal. apply IH; lia.
Qed.

Lemma pieces_unfold (sep s : string) :
  sep <> "" ->
  pieces sep s =
  match cut sep s with
  | None => [s]
  | Some (a, b) => a :: pieces sep b
  end.
Proof.
  intros Hs. unfold pieces.
  destruct (length s) as [|n] eqn:L.
  - apply length_zero in L. subst s. now rewrite (cut_nonempty_empty sep Hs).
  - simpl. destruct (cut sep s) as [[a b]|] eqn:C; [|reflexivity].
    pose proof (cut_shorter sep s a b Hs C).
    f_equal. apply split_fuel_enough; [exact Hs | lia | lia].
Qed.

Lemma item_pieces_0 (sep s : string) :
  sep <> "" -> item (pieces sep s) 0 = inr (before sep s).
Proof.
  intros Hs. rewrite (pieces_unfold sep s Hs). unfold before.
  destruct (cut sep s) as [[a b]|]; reflexivity.
Qed.

Lemma item_pieces_1 (sep s : string) :
  sep <> "" ->
  item (pieces sep s) 1 =
  match cut sep s with
  | None => inl IndexError
  | Some (_, b) => inr (before sep b)
  end.
Proof.
  intros Hs. rewrite (pieces_unfold sep s Hs).
  destruct (cut sep s) as [[a b]|]; [|reflexivity].
  rewrite (pieces_unfold sep b Hs). unfold before.
  destruct (cut sep b) as [[a' b']|]; reflexivity.
Qed.

Lemma before_at (sep x y : string) :
  unbordered sep = true -> ~ occurs sep x -> before sep (x ++ sep ++ y) = x.
Proof. intros U N. unfold before. now rewrite (cut_at sep x y U N). Qed.

Lemma before_none (sep s : string) : ~ occurs sep s -> before sep s = s.
Proof.
  intros N. unfold before. apply cut_None_iff in N. now rewrite N.
Qed.

(* ================================================================== *)
(** * The extraction in terms of leftmost occurrences *)
(* ================================================================== *)

Lemma HUMAN_nonempty : HUMAN <> "".
Proof. discriminate. Qed.

Lemma ASSISTANT_nonempty : ASSISTANT <> "".
Proof. discriminate. Qed.

Lemma HUMAN_unbordered : unbordered HUMAN = true.
Proof. reflexivity. Qed.

Lemma ASSISTANT_unbordered : unbordered ASSISTANT = true.
Proof. reflexivity. Qed.

Lemma instruction_body_eq (s : string) :
  instruction_body s =
  match cut HUMAN s with
  | None => inl IndexError
  | Some (_, b) => inr (before ASSISTANT (before HUMAN b))
  end.
Proof.
  unfold instruction_body.
  change (split s HUMAN) with (@ret (list string) (pieces HUMAN s)).
  unfold bind at 1. unfold ret at 1.
  rewrite (item_pieces_1 HUMAN s HUMAN_nonempty).
  destruct (cut HUMAN s) as [[a b]|]; [|reflexivity].
  unfold bind at 1.
  change (split (before HUMAN b) ASSISTANT)
    with (@ret (list string) (pieces ASSISTANT (before HUMAN b))).
  unfold bind, ret.
  apply item_pieces_0. exact ASSISTANT_nonempty.
Qed.

Lemma extract_response_eq (s : string) :
  extract_response s =
  match cut ASSISTANT s with
  | None => inl IndexError
  | Some (_, b) => inr (before HUMAN (before ASSISTANT b))
  end.
Proof.
  unfold extract_response.
  change (split s ASSISTANT) with (@ret (list string) (pieces ASSISTANT s)).
  unfold bind at 1. unfold ret at 1.
  rewrite (item_pieces_1 ASSISTANT s ASSISTANT_nonempty).
  destruct (cut ASSISTANT s) as [[a b]|]; [|reflexivity].
  unfold bind at 1.
  change (split (before ASSISTANT b) HUMAN)
    with (@ret (list string) (pieces HUMAN (before ASSISTANT b))).
  unfold bind, ret.
  apply item_pieces_0. exact HUMAN_nonempty.
Qed.

Lemma extract_prompt_eq (s : string) :
  extract_prompt s =
  match cut HUMAN s with
  | None => inl IndexError
  | Some (_, b) =>
      inr (PREAMBLE ++ before ASSISTANT (before HUMAN b) ++ RESPONSE_CUE)
  end.
Proof.
  unfold extract_prompt. rewrite instruction_body_eq.
  destruct (cut HUMAN s) as [[a b]|]; reflexivity.
Qed.

Lemma normalize_eq (s : string) :
  normalize s =
  match cut HUMAN s, cut ASSISTANT s with
  | Some (_, b), Some (_, d) =>
      inr (mkExample
             (PREAMBLE ++ before ASSISTANT (before HUMAN b) ++ RESPONSE_CUE)
             (before HUMAN (before ASSISTANT d)))
  | _, _ => inl IndexError
  end.
Proof.
  unfold normalize. rewrite extract_prompt_eq, extract_response_eq.
  destruct (cut HUMAN s) as [[a b]|]; [|reflexivity].
  destruct (cut ASSISTANT s) as [[c d]|]; reflexivity.
Qed.

(** [normalize] returns an example exactly on the records that contain
    both markers; every failure is the [IndexError] of an index [1] into a
    one-element list. *)
Lemma occurrences_pos_iff (sep s : string) :
  0 < occurrences sep s <-> occurs sep s.
Proof.
  split.
  - intros H. destruct (cut sep s) as [[a b]|] eqn:C.
    + exists a, b. now apply cut_sound.
    + apply cut_None_iff in C. apply occurrences_zero_iff in C. lia.
  - intros O. destruct (occurrences sep s) eqn:E; [|lia].
    apply occurrences_zero_iff in E. now elim E.
Qed.

Lemma cut_Some_iff (sep s : string) :
  0 < occurrences sep s <-> exists a b, cut sep s = Some (a, b).
Proof.
  rewrite occurrences_pos_iff. split.
  - intros O. destruct (cut sep s) as [[a b]|] eqn:C.
    + now exists a, b.
    + now elim (cut_complete sep s O).
  - intros [a [b C]]. exists a, b. now apply cut_sound.
Qed.

Lemma normalize_ok (s : string) :
  normalizable s = true -> exists e, normalize s = inr e.
Proof.
  unfold normalizable. intros H.
  apply andb_true_iff in H. destruct H as [Hh Ha].
  apply Nat.ltb_lt in Hh, Ha.
  apply cut_Some_iff in Hh, Ha.
  destruct Hh as [a [b Hh]]. destruct Ha as [c [d Ha]].
  rewrite normalize_eq, Hh, Ha. eexists. reflexivity.
Qed.

Lemma normalize_fails (s : string) :
  normalizable s = false -> normalize s = inl IndexError.
Proof.
  unfold normalizable. intros H. rewrite normalize_eq.
  apply andb_false_iff in H. destruct H as [H | H];
    apply Nat.ltb_ge in H;
    assert (Z : occurrences _ s = 0) by (apply Nat.le_0_r; exact H);
    apply occurrences_zero_iff, cut_None_iff in Z; rewrite Z.
  - reflexivity.
  - destruct (cut HUMAN s) as [[a b]|]; reflexivity.
Qed.

(* ================================================================== *)
(** * The loop and its accumulators *)
(* ================================================================== *)

Lemma inr_inj (A B : Type) (x y : B) : @inr A B x = inr y -> x = y.
Proof. intros H. now injection H. Qed.

Lemma normalize_inv (s : string) (e : Example) :
  normalize s = inr e ->
  extract_prompt s = inr (prompt e) /\ extract_response s = inr (response e).
Proof.
  unfold normalize. intros H.
  destruct (extract_prompt s) as [x|p]; [discriminate|].
  destruct (extract_response s) as [x|r]; [discriminate|].
  injection H as <-. now split.
Qed.

Lemma loop_body_ok (st : acc) (s : string) (e : Example) :
  normalize s = inr e ->
  loop_body st s =
  Done (mkAcc (prompts st ++ [prompt e])%list (responses st ++ [response e])%list).
Proof.
  intros H. apply normalize_inv in H. destruct H as [Hp Hr].
  unfold loop_body. now rewrite Hp, Hr.
Qed.

Lemma loop_ok (texts : list string) :
  forall (es : list Example) (st : acc),
    normalize_all texts = inr es ->
    loop st texts =
    Done (mkAcc (prompts st ++ map prompt es)%list
                (responses st ++ map response es)%list).
Proof.
  induction texts as [|t texts IH]; intros es st H; simpl in H.
  - injection H as <-. simpl. rewrite !app_nil_r. now destruct st.
  - destruct (normalize t) as [x|e] eqn:N; [discriminate|]. simpl in H.
    destruct (normalize_all texts) as [x|es'] eqn:A; [discriminate|].
    injection H as <-. simpl.
    rewrite (loop_body_ok st t e N), (IH es' _ eq_refl). simpl.
    now rewrite <- !app_assoc.
Qed.

Lemma loop_app (l1 l2 : list string) :
  forall st : acc,
    loop st (l1 ++ l2)%list =
    match loop st l1 with
    | Done st' => loop st' l2
    | Raised e st' => Raised e st'
    end.
Proof.
  induction l1 as [|t l1 IH]; intros st; simpl; [reflexivity|].
  destruct (loop_body st t) as [st'|e st']; [apply IH | reflexivity].
Qed.

Lemma normalize_all_length (texts : list string) :
  forall es, normalize_all texts = inr es ->
             List.length es = List.length texts.
Proof.
  induction texts as [|t texts IH]; intros es H; simpl in H.
  - now injection H as <-.
  - destruct (normalize t) as [x|e]; [discriminate|]. simpl in H.
    destruct (normalize_all texts) as [x|es']; [discriminate|].
    injection H as <-. simpl. f_equal. now apply IH.
Qed.

Lemma normalize_all_each (texts : list string) :
  forall es, normalize_all texts = inr es ->
             Forall2 (fun t e => normalize t = inr e) texts es.
Proof.
  induction texts as [|t texts IH]; intros es H; simpl in H.
  - apply inr_inj in H. subst es. constructor.
  - destruct (normalize t) as [x|e] eqn:N; [discriminate|]. cbn [bind] in H.
    destruct (normalize_all texts) as [x|es'] eqn:A; [discriminate|].
    apply inr_inj in H. subst es. constructor; [exact N | now apply IH].
Qed.

Lemma normalize_all_ok (texts : list string) :
  forallb normalizable texts = true ->
  exists es, normalize_all texts = inr es.
Proof.
  induction texts as [|t texts IH]; intros H; simpl in *.
  - now exists [].
  - apply andb_true_iff in H. destruct H as [Ht H].
    destruct (normalize_ok t Ht) as [e He].
    destruct (IH H) as [es Hes].
    exists (e :: es). now rewrite He, Hes.
Qed.

Lemma normalize_all_fails (texts : list string) :
  forallb normalizable texts = false ->
  normalize_all texts = inl IndexError.
Proof.
  induction texts as [|t texts IH]; intros H; simpl in *; [discriminate|].
  destruct (normalizable t) eqn:Ht.
  - destruct (normalize_ok t Ht) as [e He]. rewrite He. simpl.
    now rewrite (IH H).
  - now rewrite (normalize_fails t Ht).
Qed.

(** A record with a human marker and no assistant marker: line 83 has run
    when line 84 raises. *)
Lemma loop_body_half (st : acc) (s : string) :
  0 < occurrences HUMAN s -> occurrences ASSISTANT s = 0 ->
  exists p,
    extract_prompt s = inr p /\
    loop_body st s =
    Raised IndexError (mkAcc (prompts st ++ [p])%list (responses st)).
Proof.
  intros Hh Ha.
  apply cut_Some_iff in Hh. destruct Hh as [a [b Hh]].
  apply occurrences_zero_iff, cut_None_iff in Ha.
  unfold loop_body.
  rewrite extract_prompt_eq, extract_response_eq, Hh, Ha.
  eexists. split; reflexivity.
Qed.

(** ** Claim C2 *)

(** C2, as the specification states it, fails: on a record without the
    assistant marker the error is Python's [IndexError], not
    [MalformedRecord]. *)
Lemma normalize_error_is_not_MalformedRecord :
  occurrences ASSISTANT "### Human: hello" = 0 /\
  normalize "### Human: hello" = inl IndexError /\
  normalize "### Human: hello" <> inl MalformedRecord.
Proof. repeat split. discriminate. Qed.

(** C2, amended: whenever one of the two turn markers does not occur in
    the record, [normalize] fails, and the failure is the [IndexError] of
    line 77 or line 84. *)
Theorem normalize_missing_marker (s : string) :
  occurrences HUMAN s = 0 \/ occurrences ASSISTANT s = 0 ->
  normalize s = inl IndexError.
Proof.
  intros H. apply normalize_fails. unfold normalizable.
  destruct H as [H | H]; rewrite H; simpl;
    [reflexivity | apply andb_false_r].
Qed.

Lemma normalize_missing_marker_witness :
  (occurrences HUMAN "### Human: hello" = 0 \/
   occurrences ASSISTANT "### Human: hello" = 0) /\
  normalize "### Human: hello" = inl IndexError.
Proof.
  split.
  - right. reflexivity.
  - apply (normalize_missing_marker "### Human: hello"). right. reflexivity.
Defined.

(** The loop on a list of records: after the records of [good], a
    record with the human marker and without the assistant marker stops it
    with its prompt appended and its response missing. *)
Lemma loop_stops_half_way (good : list string) (s : string)
        (rest : list string) :
  forallb normalizable good = true ->
  0 < occurrences HUMAN s ->
  occurrences ASSISTANT s = 0 ->
  exists p st,
    extract_prompt s = inr p /\
    loop (mkAcc [] []) (good ++ s :: rest)%list = Raised IndexError st /\
    last (prompts st) "" = p /\
    List.length (responses st) = List.length good /\
    List.length (prompts st) = S (List.length (responses st)).
Proof.
  intros Hg Hh Ha.
  destruct (normalize_all_ok good Hg) as [es Hes].
  pose proof (normalize_all_length good es Hes) as L.
  rewrite loop_app, (loop_ok good es _ Hes). simpl.
  destruct (loop_body_half
              (mkAcc (map prompt es) (map response es)) s Hh Ha)
    as [p [Hp Hb]].
  rewrite Hb. exists p. eexists. split; [exact Hp|].
  split; [reflexivity|]. simpl.
  rewrite last_last, length_app, !length_map. simpl.
  repeat split; lia.
Qed.


(* ================================================================== *)
(** * The data-model invariant (claim C9) *)
(* ================================================================== *)

Lemma before_is_prefix (sep x : string) : exists t, x = before sep x ++ t.
Proof.
  unfold before. destruct (cut sep x) as [[a b]|] eqn:C.
  - exists (sep ++ b). now apply cut_sound.
  - exists "". now rewrite append_empty_r.
Qed.

Lemma before_empty_iff (sep x : string) :
  before sep x = "" <-> x = "" \/ starts_with sep x = true.
Proof.
  unfold before. rewrite cut_unfold.
  destruct (starts_with sep x) eqn:E.
  - split; [now right | reflexivity].
  - destruct x as [|c x].
    + split; [now left | reflexivity].
    + destruct (cut sep x) as [[a b]|]; split; try discriminate;
        intros [H | H]; discriminate.
Qed.

(** No non-empty suffix of the human marker begins the assistant marker. *)
Lemma HUMAN_tail_not_ASSISTANT_head (k : nat) :
  k < length HUMAN -> starts_with (drop k HUMAN) ASSISTANT = false.
Proof.
  intros Hk. change (length HUMAN) with 11 in Hk.
  do 11 (destruct k as [|k]; [reflexivity|]). lia.
Qed.

Lemma starts_with_HUMAN_before_ASSISTANT (d : string) :
  starts_with HUMAN d = true ->
  starts_with HUMAN (before ASSISTANT d) = true.
Proof.
  intros H. unfold before.
  destruct (cut ASSISTANT d) as [[a b]|] eqn:C; [|exact H].
  apply cut_sound in C. apply starts_with_iff in H. destruct H as [t H].
  rewrite C in H.
  destruct (append_eq_split _ _ _ _ H) as [[w [H1 H2]] | [w [H1 H2]]].
  - (* HUMAN = a ++ w *)
    destruct w as [|c w].
    + rewrite append_empty_r in H1. rewrite H1.
      apply starts_with_iff. exists "". now rewrite append_empty_r.
    + exfalso.
      assert (L : length HUMAN = length a + S (length w))
        by (rewrite H1 at 1; apply length_append).
      assert (D : drop (length a) HUMAN = String c w)
        by (rewrite H1; apply drop_append).
      assert (P : starts_with (String c w) ASSISTANT = true).
      { apply starts_with_iff.
        destruct (append_eq_split _ _ _ _ H2) as [[v [H3 H4]] | [v [H3 H4]]].
        - apply (f_equal length) in H3. rewrite length_append in H3.
          change (length HUMAN) with 11 in L.
          change (length ASSISTANT) with 15 in H3. simpl in H3. lia.
        - now exists v. }
      rewrite <- D, HUMAN_tail_not_ASSISTANT_head in P; [discriminate | lia].
  - apply starts_with_iff. exists w. exact H1.
Qed.

Lemma starts_with_before (p sep d : string) :
  starts_with p (before sep d) = true -> starts_with p d = true.
Proof.
  intros H. apply starts_with_iff in H. destruct H as [t H].
  destruct (before_is_prefix sep d) as [u U].
  apply starts_with_iff. exists (t ++ u).
  rewrite U at 1. rewrite H. apply append_assoc.
Qed.

Lemma response_empty_iff (d : string) :
  before HUMAN (before ASSISTANT d) = "" <->
  d = "" \/ starts_with ASSISTANT d = true \/ starts_with HUMAN d = true.
Proof.
  rewrite before_empty_iff, before_empty_iff. split.
  - intros [[H | H] | H]; [now left | now right; left |].
    right. right. now apply (starts_with_before HUMAN ASSISTANT).
  - intros [H | [H | H]]; [now left; left | now left; right |].
    right. now apply starts_with_HUMAN_before_ASSISTANT.
Qed.

(** C9, as the specification states it, fails: a record that ends with
    the assistant marker yields an example whose [response] is empty. *)
Lemma normalize_empty_response :
  normalize "### Human: hi### Assistant: " =
    inr (mkExample (PREAMBLE ++ "hi" ++ RESPONSE_CUE) "") /\
  Example_invariant (mkExample (PREAMBLE ++ "hi" ++ RESPONSE_CUE) "") = false.
Proof. split; reflexivity. Qed.

(** C9, amended: every example [normalize] returns has a non-empty
    [prompt] that ends with the response cue; its [response] is empty
    exactly when the text behind the first assistant marker is empty or
    begins with one of the two markers. *)
Theorem normalize_invariant (s : string) (e : Example) :
  normalize s = inr e ->
  prompt e <> "" /\
  ends_with RESPONSE_CUE (prompt e) = true /\
  exists a d,
    cut ASSISTANT s = Some (a, d) /\
    (response e = "" <->
     d = "" \/ starts_with ASSISTANT d = true \/ starts_with HUMAN d = true).
Proof.
  rewrite normalize_eq. intros H.
  destruct (cut HUMAN s) as [[a b]|]; [|discriminate].
  destruct (cut ASSISTANT s) as [[c d]|]; [|discriminate].
  apply inr_inj in H. subst e. cbn [prompt response]. split; [|split].
  - unfold PREAMBLE. simpl. discriminate.
  - rewrite <- append_assoc. apply ends_with_append.
  - exists c, d. split; [reflexivity | apply response_empty_iff].
Qed.

Lemma normalize_invariant_witness :
  normalize "### Human: hi### Assistant: yo" = inr (mkExample
    (PREAMBLE ++ "hi" ++ RESPONSE_CUE) "yo") /\
  (prompt (mkExample (PREAMBLE ++ "hi" ++ RESPONSE_CUE) "yo") <> "" /\
   ends_with RESPONSE_CUE
     (prompt (mkExample (PREAMBLE ++ "hi" ++ RESPONSE_CUE) "yo")) = true /\
   exists a d,
     cut ASSISTANT "### Human: hi### Assistant: yo" = Some (a, d) /\
     (response (mkExample (PREAMBLE ++ "hi" ++ RESPONSE_CUE) "yo") = "" <->
      d = "" \/ starts_with ASSISTANT d = true \/
      starts_with HUMAN d = true)).
Proof.
  split.
  - reflexivity.
  - apply (normalize_invariant "### Human: hi### Assistant: yo"). reflexivity.
Defined.

(* ================================================================== *)
(** * The formatting function (claim C7) *)
(* ================================================================== *)

Lemma item_middle (A : Type) (l1 : list A) (x : A) (l2 : list A) :
  item (l1 ++ x :: l2)%list (List.length l1) = inr x.
Proof.
  unfold item. rewrite nth_error_app2 by lia.
  now rewrite Nat.sub_diag.
Qed.

Lemma format_loop_columns (dataset : Dataset) (ps rs : list string) :
  column dataset "prompt" = inr ps ->
  column dataset "response" = inr rs ->
  forall n i, format_loop dataset i n = format_rows ps rs i n.
Proof.
  intros P R. induction n as [|n IH]; intros i; [reflexivity|].
  cbn [format_loop format_rows]. rewrite P, R. cbn [bind].
  destruct (item ps i) as [x|p]; [reflexivity|]. cbn [bind].
  destruct (item rs i) as [x|r]; [reflexivity|]. cbn [bind].
  now rewrite IH.
Qed.

Lemma formatting_prompts_func_columns (dataset : Dataset)
      (ps rs : list string) :
  column dataset "prompt" = inr ps ->
  column dataset "response" = inr rs ->
  formatting_prompts_func dataset = format_rows ps rs 0 (List.length ps).
Proof.
  intros P R. unfold formatting_prompts_func. rewrite P. cbn [bind].
  apply (format_loop_columns dataset ps rs P R).
Qed.

Lemma format_rows_from (seen es : list Example) :
  format_rows (map prompt (seen ++ es)%list) (map response (seen ++ es)%list)
              (List.length seen) (List.length es)
  = inr (map format es).
Proof.
  revert seen. induction es as [|e es IH]; intros seen; [reflexivity|].
  cbn [List.length format_rows map].
  rewrite !map_app. cbn [map].
  rewrite <- (length_map prompt seen) at 1. rewrite item_middle. cbn [bind].
  rewrite <- (length_map response seen) at 1. rewrite item_middle. cbn [bind].
  specialize (IH (seen ++ [e])%list).
  rewrite <- !app_assoc, !map_app, length_app in IH. cbn [List.length map app] in IH.
  rewrite Nat.add_1_r in IH. rewrite IH. reflexivity.
Qed.

(** C7: the text the formatting function returns for an example is its
    [prompt], one newline character, and its [response]; nothing else is
    added or removed. *)
Theorem formatting_prompts_func_spec (es : list Example) :
  formatting_prompts_func (table_of es) =
  inr (map (fun e => prompt e ++ String (ascii_of_nat 10) "" ++ response e) es).
Proof.
  rewrite (formatting_prompts_func_columns
             (table_of es) (map prompt es) (map response es) eq_refl eq_refl).
  rewrite length_map.
  exact (format_rows_from [] es).
Qed.

(* ================================================================== *)
(** * Tables *)
(* ================================================================== *)

Lemma mem_In (n : string) (l : list string) : mem n l = true <-> In n l.
Proof.
  unfold mem. rewrite existsb_exists. split.
  - intros [x [Hx E]]. apply String.eqb_eq in E. now subst x.
  - intros H. exists n. split; [exact H | apply String.eqb_refl].
Qed.

Lemma mem_false_app (n : string) (l1 l2 : list string) :
  mem n l1 = false -> mem n l2 = false -> mem n (l1 ++ l2)%list = false.
Proof.
  unfold mem. intros H1 H2. now rewrite existsb_app, H1, H2.
Qed.

Lemma column_In (ds : Dataset) (name : string) (cells : list string) :
  column ds name = inr cells -> In (name, cells) ds.
Proof.
  induction ds as [|[n c] ds IH]; simpl; [discriminate|].
  destruct (String.eqb n name) eqn:E.
  - intros H. apply String.eqb_eq in E. subst n. left.
    f_equal. now injection H.
  - intros H. right. now apply IH.
Qed.

Lemma column_length (ds : Dataset) (name : string) (cells : list string) :
  table_ok ds = true -> column ds name = inr cells ->
  List.length cells = num_rows ds.
Proof.
  unfold table_ok. intros T C. apply column_In in C.
  rewrite forallb_forall in T. specialize (T _ C).
  now apply Nat.eqb_eq in T.
Qed.

Lemma num_rows_app (ds : Dataset) (c : string * list string) :
  ds <> [] -> num_rows (ds ++ [c])%list = num_rows ds.
Proof. destruct ds as [|[n x] ds]; [intros H; now elim H | reflexivity]. Qed.

Lemma mem_old_columns (ds : Dataset) (n : string) :
  mem n (old_columns ds) =
  mem n (column_names ds) && negb (mem n ["prompt"; "response"]).
Proof.
  unfold old_columns.
  destruct (mem n (filter _ (column_names ds))) eqn:E.
  - apply mem_In, filter_In in E. destruct E as [E1 E2].
    apply mem_In in E1. now rewrite E1, E2.
  - destruct (mem n (column_names ds)) eqn:E1; [|reflexivity].
    destruct (negb (mem n ["prompt"; "response"])) eqn:E2; [|reflexivity].
    assert (X : mem n (filter (fun col => negb (mem col ["prompt"; "response"]))
                              (column_names ds)) = true).
    { apply mem_In, filter_In. split; [now apply mem_In | exact E2]. }
    congruence.
Qed.

Lemma old_columns_present (ds : Dataset) :
  forallb (fun n => mem n (column_names ds)) (old_columns ds) = true.
Proof.
  apply forallb_forall. intros n H.
  unfold old_columns in H. apply filter_In in H.
  apply mem_In. exact (proj1 H).
Qed.

(** What line 95 keeps are the columns named [prompt] or [response]. *)
Lemma remove_old_columns (ds : Dataset) :
  remove_columns ds (old_columns ds) =
  inr (filter (fun c => mem (fst c) ["prompt"; "response"]) ds).
Proof.
  unfold remove_columns. rewrite old_columns_present. unfold ret. f_equal.
  apply filter_ext_in. intros [n c] H. simpl.
  rewrite mem_old_columns.
  assert (M : mem n (column_names ds) = true).
  { apply mem_In. unfold column_names. apply in_map_iff.
    exists (n, c). now split. }
  rewrite M. simpl. apply negb_involutive.
Qed.

Lemma mem_cons (x n : string) (l : list string) :
  mem x (n :: l) = String.eqb x n || mem x l.
Proof. reflexivity. Qed.

Lemma filter_no_prompt_response (ds : Dataset) :
  mem "prompt" (column_names ds) = false ->
  mem "response" (column_names ds) = false ->
  filter (fun c => mem (fst c) ["prompt"; "response"]) ds = [].
Proof.
  induction ds as [|[n c] ds IH]; intros Hp Hr; [reflexivity|].
  unfold column_names in Hp, Hr. cbn [map fst] in Hp, Hr.
  rewrite mem_cons in Hp, Hr.
  apply orb_false_iff in Hp, Hr.
  destruct Hp as [Hp1 Hp2]. destruct Hr as [Hr1 Hr2].
  cbn [filter fst]. rewrite !mem_cons.
  rewrite (String.eqb_sym n "prompt"), Hp1.
  rewrite (String.eqb_sym n "response"), Hr1.
  cbn [orb mem existsb]. now apply IH.
Qed.

Lemma column_text_nonempty (ds : Dataset) (name : string)
      (cells : list string) :
  column ds name = inr cells -> ds <> [].
Proof. destruct ds; [discriminate | discriminate]. Qed.

(** The loop over the row numbers visits the cells of the [text] column
    in order. *)
Lemma loop_range_eq (ds : Dataset) (texts : list string) :
  forall (seen : list string) (st : acc),
    column ds "text" = inr (seen ++ texts)%list ->
    loop_range ds st (List.length seen) (List.length texts) = loop st texts.
Proof.
  induction texts as [|t texts IH]; intros seen st C; [reflexivity|].
  cbn [List.length loop_range loop].
  unfold row_text. rewrite C. cbn [bind]. rewrite item_middle.
  destruct (loop_body st t) as [st'|e st']; [|reflexivity].
  specialize (IH (seen ++ [t])%list st').
  rewrite length_app, Nat.add_1_r in IH. apply IH.
  now rewrite <- app_assoc.
Qed.

Lemma raw_ok_inv (ds : Dataset) :
  raw_ok ds = true ->
  table_ok ds = true /\
  mem "prompt" (column_names ds) = false /\
  mem "response" (column_names ds) = false.
Proof.
  unfold raw_ok. intros R.
  apply andb_true_iff in R. destruct R as [R Hr].
  apply andb_true_iff in R. destruct R as [Hok Hp].
  apply negb_true_iff in Hp, Hr. now repeat split.
Qed.

Lemma extract_columns_spec (raw : Dataset) (texts : list string)
      (es : list Example) :
  table_ok raw = true ->
  column raw "text" = inr texts ->
  normalize_all texts = inr es ->
  extract_columns raw = inr (map prompt es, map response es).
Proof.
  intros Hok T N. unfold extract_columns.
  rewrite <- (column_length raw "text" texts Hok T).
  rewrite (loop_range_eq raw texts [] _ T), (loop_ok texts es _ N).
  reflexivity.
Qed.

Lemma normalize_dataset_spec (raw : Dataset) (texts : list string)
      (es : list Example) :
  raw_ok raw = true ->
  column raw "text" = inr texts ->
  normalize_all texts = inr es ->
  normalize_dataset raw = inr (table_of es).
Proof.
  intros R T N.
  destruct (raw_ok_inv raw R) as [Hok [Hp Hr]].
  pose proof (column_length raw "text" texts Hok T) as L.
  pose proof (normalize_all_length texts es N) as Le.
  pose proof (column_text_nonempty raw "text" texts T) as Hne.
  unfold normalize_dataset.
  rewrite (extract_columns_spec raw texts es Hok T N).
  cbn [bind ret fst snd].
  unfold add_column at 1. rewrite Hp, length_map.
  replace (Nat.eqb (List.length es) (num_rows raw)) with true
    by (symmetry; apply Nat.eqb_eq; lia).
  cbn [negb bind ret]. unfold add_column.
  unfold column_names at 1. rewrite map_app. cbn [map fst].
  fold (column_names raw).
  rewrite (mem_false_app "response" (column_names raw) ["prompt"] Hr eq_refl).
  rewrite length_map, (num_rows_app raw _ Hne).
  replace (Nat.eqb (List.length es) (num_rows raw)) with true
    by (symmetry; apply Nat.eqb_eq; lia).
  cbn [negb bind ret]. rewrite remove_old_columns. f_equal.
  rewrite !filter_app, (filter_no_prompt_response raw Hp Hr).
  reflexivity.
Qed.

(** A table whose columns are [prompt] and [response]. *)
Lemma two_columns (A : Dataset) :
  column_names A = ["prompt"; "response"] ->
  exists pa ra, A = [("prompt", pa); ("response", ra)].
Proof.
  destruct A as [|[n1 c1] [|[n2 c2] [|x A]]]; try discriminate.
  unfold column_names. cbn [map fst]. intros H.
  injection H as -> ->. now exists c1, c2.
Qed.

Lemma row_zero_table_of (e : Example) (es : list Example) :
  row (table_of (e :: es)) 0 =
  inr [("prompt", prompt e); ("response", response e)].
Proof. reflexivity. Qed.

(** [mix] puts the normalised records of the second dataset under the
    rows of the first; line 105 lets it pass when there is a record. *)
Lemma mix_spec (pa ra : list string) (raw : Dataset) (texts : list string)
      (es : list Example) :
  raw_ok raw = true ->
  column raw "text" = inr texts ->
  normalize_all texts = inr es ->
  0 < num_rows raw ->
  mix [("prompt", pa); ("response", ra)] raw =
  inr [("prompt", (pa ++ map prompt es)%list);
       ("response", (ra ++ map response es)%list)].
Proof.
  intros R T N Z. unfold mix.
  rewrite (normalize_dataset_spec raw texts es R T N). cbn [bind].
  destruct (raw_ok_inv raw R) as [Hok _].
  pose proof (column_length raw "text" texts Hok T) as L.
  pose proof (normalize_all_length texts es N) as Le.
  destruct es as [|e es]; [simpl in Le; lia|].
  rewrite row_zero_table_of. cbn [bind].
  unfold concatenate_datasets, table_of, column_names. cbn [map fst].
  destruct (list_eq_dec string_dec ["prompt"; "response"]
                        ["prompt"; "response"]) as [_|X];
    [reflexivity | now elim X].
Qed.

(** Without a record, line 105 stops the run. *)
Lemma mix_no_rows (A raw : Dataset) :
  raw_ok raw = true ->
  column raw "text" = inr [] ->
  mix A raw = inl IndexError.
Proof.
  intros R T. unfold mix.
  now rewrite (normalize_dataset_spec raw [] [] R T eq_refl).
Qed.

Lemma combine_append (A B : Type) (l1 l2 : list A) (m1 m2 : list B) :
  List.length l1 = List.length m1 ->
  combine (l1 ++ l2)%list (m1 ++ m2)%list =
  (combine l1 m1 ++ combine l2 m2)%list.
Proof.
  revert m1. induction l1 as [|x l1 IH]; intros [|y m1] L; simpl in *;
    try discriminate; [reflexivity|].
  f_equal. apply IH. now injection L.
Qed.

Lemma rows_of_columns (es : list Example) :
  map (fun pr => mkExample (fst pr) (snd pr))
      (combine (map prompt es) (map response es)) = es.
Proof.
  induction es as [|[p r] es IH]; simpl; [reflexivity | now rewrite IH].
Qed.

Lemma examples_table_of (es : list Example) :
  examples (table_of es) = inr es.
Proof.
  unfold examples, table_of. cbn [column String.eqb]. simpl.
  unfold ret. f_equal. apply rows_of_columns.
Qed.

(* ================================================================== *)
(** * [mix] (claims C5, C6, C8, C3) and the failing loop (claim C10) *)
(* ================================================================== *)

(** C5: [mix] returns a table with as many rows as both datasets have
    together. *)
Theorem mix_length (A B : Dataset) (texts : list string) :
  column_names A = ["prompt"; "response"] ->
  raw_ok B = true ->
  column B "text" = inr texts ->
  0 < num_rows B ->
  forallb normalizable texts = true ->
  exists D,
    mix A B = inr D /\
    num_rows D = num_rows A + num_rows B.
Proof.
  intros SA R T Z G.
  destruct (two_columns A SA) as [pa [ra ->]].
  destruct (normalize_all_ok texts G) as [es N].
  eexists. split; [exact (mix_spec pa ra B texts es R T N Z)|].
  cbn [num_rows]. rewrite length_app, length_map.
  rewrite (normalize_all_length texts es N).
  destruct (raw_ok_inv B R) as [Hok _].
  now rewrite (column_length B "text" texts Hok T).
Qed.

Lemma mix_length_witness :
  (column_names (table_of [mkExample "P1" "R1"]) = ["prompt"; "response"] /\
   raw_ok [("text", ["### Human: a### Assistant: b"; "### Human: c### Assistant: d"])] = true /\
   column [("text", ["### Human: a### Assistant: b"; "### Human: c### Assistant: d"])] "text" = inr ["### Human: a### Assistant: b"; "### Human: c### Assistant: d"] /\
   0 < num_rows [("text", ["### Human: a### Assistant: b"; "### Human: c### Assistant: d"])] /\
   forallb normalizable ["### Human: a### Assistant: b"; "### Human: c### Assistant: d"] = true) /\
  exists D,
    mix (table_of [mkExample "P1" "R1"]) [("text", ["### Human: a### Assistant: b"; "### Human: c### Assistant: d"])] = inr D /\
    num_rows D = num_rows (table_of [mkExample "P1" "R1"]) + num_rows [("text", ["### Human: a### Assistant: b"; "### Human: c### Assistant: d"])].
Proof.
  assert (Z : 0 < num_rows [("text", ["### Human: a### Assistant: b"; "### Human: c### Assistant: d"])]) by (simpl; lia).
  split.
  - split; [reflexivity|]. split; [reflexivity|]. split; [reflexivity|].
    split; [exact Z | reflexivity].
  - apply (mix_length (table_of [mkExample "P1" "R1"]) [("text", ["### Human: a### Assistant: b"; "### Human: c### Assistant: d"])] ["### Human: a### Assistant: b"; "### Human: c### Assistant: d"]);
      first [reflexivity | exact Z].
Defined.

(** C6: the rows of [mix A B] are the rows of [A] in their order followed
    by the normalised rows of [B] in theirs; in particular its first
    [len A] rows are [A]. *)
Theorem mix_order (A B : Dataset) (texts : list string) :
  column_names A = ["prompt"; "response"] ->
  table_ok A = true ->
  raw_ok B = true ->
  column B "text" = inr texts ->
  0 < num_rows B ->
  forallb normalizable texts = true ->
  exists D a es,
    mix A B = inr D /\
    examples A = inr a /\
    normalize_all texts = inr es /\
    examples D = inr (a ++ es)%list /\
    firstn (num_rows A) (a ++ es)%list = a /\
    skipn (num_rows A) (a ++ es)%list = es.
Proof.
  intros SA TA R T Z G.
  destruct (two_columns A SA) as [pa [ra ->]].
  destruct (normalize_all_ok texts G) as [es N].
  assert (L : List.length pa = List.length ra).
  { unfold table_ok in TA. cbn [forallb snd num_rows] in TA.
    apply andb_true_iff in TA. destruct TA as [_ TA].
    apply andb_true_iff in TA. destruct TA as [TA _].
    apply Nat.eqb_eq in TA. now symmetry. }
  pose (a := map (fun pr => mkExample (fst pr) (snd pr)) (combine pa ra)).
  assert (La : List.length a = List.length pa).
  { unfold a. rewrite length_map, length_combine. lia. }
  eexists. exists a, es.
  split; [exact (mix_spec pa ra B texts es R T N Z)|].
  split; [reflexivity|]. split; [exact N|]. split.
  - unfold examples. cbn [column String.eqb]. simpl. unfold ret. f_equal.
    rewrite (combine_append _ _ pa _ ra _ L), map_app, rows_of_columns.
    reflexivity.
  - cbn [num_rows]. rewrite <- La. split.
    + rewrite firstn_app, Nat.sub_diag, firstn_all. simpl. apply app_nil_r.
    + rewrite skipn_app, Nat.sub_diag, skipn_all. reflexivity.
Qed.

Lemma mix_order_witness :
  (column_names (table_of [mkExample "P1" "R1"; mkExample "P2" "R2"]) = ["prompt"; "response"] /\
   table_ok (table_of [mkExample "P1" "R1"; mkExample "P2" "R2"]) = true /\
   raw_ok [("text", ["### Human: a### Assistant: b"])] = true /\
   column [("text", ["### Human: a### Assistant: b"])] "text" = inr ["### Human: a### Assistant: b"] /\
   0 < num_rows [("text", ["### Human: a### Assistant: b"])] /\
   forallb normalizable ["### Human: a### Assistant: b"] = true) /\
  exists D a es,
    mix (table_of [mkExample "P1" "R1"; mkExample "P2" "R2"]) [("text", ["### Human: a### Assistant: b"])] = inr D /\
    examples (table_of [mkExample "P1" "R1"; mkExample "P2" "R2"]) = inr a /\
    normalize_all ["### Human: a### Assistant: b"] = inr es /\
    examples D = inr (a ++ es)%list /\
    firstn (num_rows (table_of [mkExample "P1" "R1"; mkExample "P2" "R2"])) (a ++ es)%list = a /\
    skipn (num_rows (table_of [mkExample "P1" "R1"; mkExample "P2" "R2"])) (a ++ es)%list = es.
Proof.
  assert (Z : 0 < num_rows [("text", ["### Human: a### Assistant: b"])]) by (simpl; lia).
  split.
  - split; [reflexivity|]. split; [reflexivity|]. split; [reflexivity|].
    split; [reflexivity|]. split; [exact Z | reflexivity].
  - apply (mix_order (table_of [mkExample "P1" "R1"; mkExample "P2" "R2"]) [("text", ["### Human: a### Assistant: b"])] ["### Human: a### Assistant: b"]); first [reflexivity | exact Z].
Defined.






(** C10: when the loop of lines 74-85 reaches a record that has the human
    marker and lacks the assistant marker, it stops with [IndexError]
    after the prompt of that record has been appended: the list of prompts
    is one longer than the list of responses. *)
Theorem loop_failure_not_atomic (ds : Dataset) (good : list string)
        (s : string) (rest : list string) :
  table_ok ds = true ->
  column ds "text" = inr (good ++ s :: rest)%list ->
  forallb normalizable good = true ->
  0 < occurrences HUMAN s ->
  occurrences ASSISTANT s = 0 ->
  exists p st,
    extract_prompt s = inr p /\
    loop_range ds (mkAcc [] []) 0 (num_rows ds) = Raised IndexError st /\
    last (prompts st) "" = p /\
    List.length (responses st) = List.length good /\
    List.length (prompts st) = S (List.length (responses st)).
Proof.
  intros Hok T Hg Hh Ha.
  rewrite <- (column_length ds "text" _ Hok T).
  rewrite (loop_range_eq ds _ [] _ T).
  exact (loop_stops_half_way good s rest Hg Hh Ha).
Qed.

Lemma loop_failure_not_atomic_witness :
  (table_ok [("text", ["### Human: a### Assistant: b"; "### Human: zz"])]
   = true /\
   column [("text", ["### Human: a### Assistant: b"; "### Human: zz"])] "text"
   = inr (["### Human: a### Assistant: b"] ++ "### Human: zz" :: [])%list /\
   forallb normalizable ["### Human: a### Assistant: b"] = true /\
   0 < occurrences HUMAN "### Human: zz" /\
   occurrences ASSISTANT "### Human: zz" = 0) /\
  exists p st,
    extract_prompt "### Human: zz" = inr p /\
    loop_range [("text", ["### Human: a### Assistant: b"; "### Human: zz"])]
               (mkAcc [] []) 0
               (num_rows [("text", ["### Human: a### Assistant: b";
                                    "### Human: zz"])])
    = Raised IndexError st /\
    last (prompts st) "" = p /\
    List.length (responses st) = 1 /\
    List.length (prompts st) = S (List.length (responses st)).
Proof.
  assert (H2 : 0 < occurrences HUMAN "### Human: zz") by (vm_compute; lia).
  split.
  - repeat split; first [reflexivity | exact H2].
  - apply (loop_failure_not_atomic
             [("text", ["### Human: a### Assistant: b"; "### Human: zz"])]
             ["### Human: a### Assistant: b"] "### Human: zz" []);
      first [reflexivity | exact H2].
Defined.

(** ** The scenario of the specification (claim C3) *)

(** C3, as the specification states it, fails: the instruction body keeps
    the space in front of the assistant marker and the response cue begins
    with a space, so two spaces separate [Q1] from [### Response: ]. *)
Lemma scenario_prompt_differs :
  normalize "### Human: Q1 ### Assistant: A1 ### Human: Q2" <>
    inr (mkExample (PREAMBLE ++ "Q1 ### Response: ") "A1 ") /\
  match normalize "### Human: Q1 ### Assistant: A1 ### Human: Q2" with
  | inr e => ends_with "Q1 ### Response: " (prompt e)
  | inl _ => true
  end = false.
Proof.
  split; [|reflexivity].
  intros H. vm_compute in H. discriminate H.
Qed.

(** C3, amended: on [A = [{P1, R1}]] and the raw record of the scenario,
    the normalised example has the prompt
    [PREAMBLE ++ "Q1 " ++ " ### Response: "] and the response ["A1 "];
    [mix] has two rows, and the formatted text of the second row starts
    with the preamble. *)
Theorem spec_scenario_amended :
  normalize "### Human: Q1 ### Assistant: A1 ### Human: Q2" =
    inr (mkExample (PREAMBLE ++ "Q1 " ++ " ### Response: ") "A1 ") /\
  mix (table_of [mkExample "P1" "R1"])
      [("text", ["### Human: Q1 ### Assistant: A1 ### Human: Q2"])] =
    inr (table_of [mkExample "P1" "R1";
                   mkExample (PREAMBLE ++ "Q1 " ++ " ### Response: ") "A1 "]) /\
  num_rows (table_of [mkExample "P1" "R1";
                      mkExample (PREAMBLE ++ "Q1 " ++ " ### Response: ") "A1 "])
    = 2 /\
  formatting_prompts_func
    (table_of [mkExample "P1" "R1";
               mkExample (PREAMBLE ++ "Q1 " ++ " ### Response: ") "A1 "]) =
    inr ["P1" ++ LF ++ "R1";
         (PREAMBLE ++ "Q1 " ++ " ### Response: ") ++ LF ++ "A1 "] /\
  starts_with PREAMBLE
    ((PREAMBLE ++ "Q1 " ++ " ### Response: ") ++ LF ++ "A1 ") = true.
Proof. repeat split; reflexivity. Qed.

(* ================================================================== *)
(** * Where the markers of a record lie (claims C1 and C4) *)
(* ================================================================== *)

(** An occurrence in [x ++ y] lies in [x], straddles the seam, or lies in
    [y]; in the last case the text in front of it begins with [x]. *)
Lemma occurrence_place (sep x y a b : string) :
  x ++ y = a ++ sep ++ b ->
  occurs sep x \/ straddles sep x y = true \/
  exists w, a = x ++ w /\ y = w ++ sep ++ b.
Proof.
  intros E.
  destruct (append_eq_split _ _ _ _ E) as [[w [H1 H2]] | [w [H1 H2]]].
  - right. right. now exists w.
  - destruct (append_eq_split _ _ _ _ H2) as [[v [H3 H4]] | [v [H3 H4]]].
    + left. exists a, v. now rewrite H1, H3.
    + destruct w as [|d w].
      * right. right. exists "". simpl in H3. subst v.
        rewrite append_empty_r in H1. subst x.
        rewrite append_empty_r. split; [reflexivity | exact H4].
      * destruct v as [|e v].
        -- left. rewrite append_empty_r in H3. subst sep.
           exists a, "". now rewrite append_empty_r.
        -- right. left. unfold straddles. apply existsb_exists.
           exists (length (String d w)). split.
           ++ apply in_seq. rewrite H3, length_append. simpl. lia.
           ++ rewrite H3, take_append, drop_append.
              rewrite H1, H4, ends_with_append, starts_with_append.
              reflexivity.
Qed.

Lemma ends_with_tail (p : string) (c : ascii) (x : string) :
  ends_with p x = true -> ends_with p (String c x) = true.
Proof.
  intros H. apply ends_with_iff in H. destruct H as [a ->].
  apply ends_with_iff. now exists (String c a).
Qed.

Lemma straddles_tail (sep : string) (c : ascii) (x y : string) :
  straddles sep (String c x) y = false -> straddles sep x y = false.
Proof.
  unfold straddles. intros H.
  apply not_true_is_false. intros E.
  apply existsb_exists in E. destruct E as [k [Hk E]].
  apply andb_true_iff in E. destruct E as [E1 E2].
  apply not_true_iff_false in H. apply H.
  apply existsb_exists. exists k.
  split; [exact Hk|]. now rewrite (ends_with_tail _ c x E1), E2.
Qed.

(** Text without an occurrence, with none across its end, is skipped by
    the search. *)
Lemma cut_skip (sep x y : string) :
  ~ occurs sep x -> straddles sep x y = false ->
  cut sep (x ++ y) =
  match cut sep y with
  | Some (a, b) => Some (x ++ a, b)
  | None => None
  end.
Proof.
  induction x as [|c x IH]; intros N S.
  - simpl. destruct (cut sep y) as [[a b]|]; reflexivity.
  - rewrite cut_unfold.
    destruct (starts_with sep (String c x ++ y)) eqn:E.
    + exfalso. apply starts_with_iff in E. destruct E as [t E].
      destruct (occurrence_place sep (String c x) y "" t E)
        as [H | [H | [w [H _]]]];
        [now apply N | congruence | discriminate].
    + simpl. rewrite IH.
      * destruct (cut sep y) as [[a b]|]; reflexivity.
      * intros O. apply N. now apply occurs_tail.
      * now apply (straddles_tail sep c).
Qed.

Lemma before_skip (sep x y : string) :
  ~ occurs sep x -> straddles sep x y = false ->
  before sep (x ++ y) = x ++ before sep y.
Proof.
  intros N S. unfold before. rewrite (cut_skip sep x y N S).
  destruct (cut sep y) as [[a b]|]; reflexivity.
Qed.

Lemma straddles_false (sep x y : string) :
  (forall k, 0 < k < length sep ->
             ends_with (take k sep) x && starts_with (drop k sep) y = false) ->
  straddles sep x y = false.
Proof.
  intros H. unfold straddles.
  apply not_true_is_false. intros E.
  apply existsb_exists in E. destruct E as [k [Hk E]].
  apply in_seq in Hk. rewrite H in E by lia. discriminate.
Qed.

(** The cases of [straddles_false] for a marker of at most 15
    characters: each one is decided by the known text on one side of the
    seam, or is the hypothesis at hand. *)
Ltac seam :=
  apply straddles_false;
  let k := fresh "k" in
  let Hk := fresh "Hk" in
  intros k Hk;
  change (length HUMAN) with 11 in Hk;
  change (length ASSISTANT) with 15 in Hk;
  do 15 (destruct k as [|k];
         [ first [ lia
                 | reflexivity
                 | apply andb_false_iff; right; reflexivity
                 | apply andb_false_iff; left; assumption ] | ]);
  lia.

Lemma HUMAN_not_across_ASSISTANT (x t : string) :
  straddles HUMAN x (ASSISTANT ++ t) = false.
Proof. seam. Qed.

Lemma HUMAN_not_behind_ASSISTANT (t : string) :
  straddles HUMAN ASSISTANT t = false.
Proof. seam. Qed.

Lemma ASSISTANT_not_across_HUMAN (x t : string) :
  straddles ASSISTANT x (HUMAN ++ t) = false.
Proof. seam. Qed.

Lemma ASSISTANT_not_behind_HUMAN (t : string) :
  straddles ASSISTANT HUMAN t = false.
Proof. seam. Qed.

Lemma HUMAN_not_in_ASSISTANT : ~ occurs HUMAN ASSISTANT.
Proof. apply occurrences_zero_iff. reflexivity. Qed.

Lemma ASSISTANT_not_in_HUMAN : ~ occurs ASSISTANT HUMAN.
Proof. apply occurrences_zero_iff. reflexivity. Qed.

(** The first pair of a record decides the result: with marker-free text
    [pre] in front of the first human marker and marker-free text [q]
    between it and the assistant marker, the prompt is built from [q], and
    the response is cut from the text [t] behind the assistant marker. *)
Lemma normalize_first_pair (pre q t : string) :
  occurrences HUMAN pre = 0 -> occurrences ASSISTANT pre = 0 ->
  occurrences HUMAN q = 0 -> occurrences ASSISTANT q = 0 ->
  normalize (pre ++ HUMAN ++ q ++ ASSISTANT ++ t) =
  inr (mkExample (PREAMBLE ++ q ++ RESPONSE_CUE)
                 (before HUMAN (before ASSISTANT t))).
Proof.
  intros Hp Ap Hq Aq.
  apply occurrences_zero_iff in Hp, Ap, Hq, Aq.
  rewrite normalize_eq.
  rewrite (cut_at HUMAN pre _ HUMAN_unbordered Hp).
  assert (C : cut ASSISTANT (pre ++ HUMAN ++ q ++ ASSISTANT ++ t) =
              Some (pre ++ HUMAN ++ q, t)).
  { replace (pre ++ HUMAN ++ q ++ ASSISTANT ++ t)
      with ((pre ++ HUMAN ++ q) ++ ASSISTANT ++ t)
      by now rewrite !append_assoc.
    apply cut_at; [exact ASSISTANT_unbordered|].
    apply not_occurs_append; [exact Ap | | apply ASSISTANT_not_across_HUMAN].
    apply not_occurs_append;
      [exact ASSISTANT_not_in_HUMAN | exact Aq
       | apply ASSISTANT_not_behind_HUMAN]. }
  rewrite C.
  rewrite (before_skip HUMAN q _ Hq (HUMAN_not_across_ASSISTANT q t)).
  rewrite (before_skip HUMAN ASSISTANT t HUMAN_not_in_ASSISTANT
                       (HUMAN_not_behind_ASSISTANT t)).
  rewrite (before_at ASSISTANT q _ ASSISTANT_unbordered Aq).
  reflexivity.
Qed.

(** ** Claim C4 *)

(** C4: in a record with further turns behind the first pair, the prompt
    body ends at the first assistant marker, the response ends at the next
    human marker, and whatever follows that marker does not reach the
    result. *)
Theorem normalize_first_pair_only (pre q1 r1 rest : string) :
  occurrences HUMAN pre = 0 -> occurrences ASSISTANT pre = 0 ->
  occurrences HUMAN q1 = 0 -> occurrences ASSISTANT q1 = 0 ->
  occurrences HUMAN r1 = 0 -> occurrences ASSISTANT r1 = 0 ->
  normalize (pre ++ HUMAN ++ q1 ++ ASSISTANT ++ r1 ++ HUMAN ++ rest) =
  inr (mkExample (PREAMBLE ++ q1 ++ RESPONSE_CUE) r1).
Proof.
  intros Hp Ap Hq Aq Hr Ar.
  rewrite (normalize_first_pair pre q1 _ Hp Ap Hq Aq).
  apply occurrences_zero_iff in Hr, Ar.
  rewrite (before_skip ASSISTANT r1 _ Ar (ASSISTANT_not_across_HUMAN r1 rest)).
  rewrite (before_skip ASSISTANT HUMAN rest ASSISTANT_not_in_HUMAN
                       (ASSISTANT_not_behind_HUMAN rest)).
  rewrite (before_at HUMAN r1 _ HUMAN_unbordered Hr).
  reflexivity.
Qed.

Lemma normalize_first_pair_only_witness :
  (occurrences HUMAN "" = 0 /\ occurrences ASSISTANT "" = 0 /\
   occurrences HUMAN "Q1 " = 0 /\ occurrences ASSISTANT "Q1 " = 0 /\
   occurrences HUMAN "A1 " = 0 /\ occurrences ASSISTANT "A1 " = 0) /\
  normalize ("" ++ HUMAN ++ "Q1 " ++ ASSISTANT ++ "A1 " ++ HUMAN ++
             "Q2 ### Assistant: A2") =
  inr (mkExample (PREAMBLE ++ "Q1 " ++ RESPONSE_CUE) "A1 ").
Proof.
  split.
  - repeat split; reflexivity.
  - apply (normalize_first_pair_only "" "Q1 " "A1 " "Q2 ### Assistant: A2");
      reflexivity.
Defined.

(** ** Claim C1 *)

Lemma HUMAN_not_in_PREAMBLE : ~ occurs HUMAN PREAMBLE.
Proof. apply occurrences_zero_iff. vm_compute. reflexivity. Qed.

Lemma ASSISTANT_not_in_PREAMBLE : ~ occurs ASSISTANT PREAMBLE.
Proof. apply occurrences_zero_iff. vm_compute. reflexivity. Qed.

Lemma HUMAN_not_in_RESPONSE_CUE : ~ occurs HUMAN RESPONSE_CUE.
Proof. apply occurrences_zero_iff. reflexivity. Qed.

Lemma ASSISTANT_not_in_RESPONSE_CUE : ~ occurs ASSISTANT RESPONSE_CUE.
Proof. apply occurrences_zero_iff. reflexivity. Qed.

Lemma HUMAN_not_behind_PREAMBLE (t : string) :
  straddles HUMAN PREAMBLE t = false.
Proof. seam. Qed.

Lemma ASSISTANT_not_behind_PREAMBLE (t : string) :
  straddles ASSISTANT PREAMBLE t = false.
Proof. seam. Qed.

Lemma HUMAN_across_RESPONSE_CUE (q : string) :
  ends_with "### Human:" q = false ->
  straddles HUMAN q RESPONSE_CUE = false.
Proof. intros H. seam. Qed.

Lemma ASSISTANT_across_RESPONSE_CUE (q : string) :
  ends_with "### Assistant:" q = false ->
  straddles ASSISTANT q RESPONSE_CUE = false.
Proof. intros H. seam. Qed.

(** The prompt holds a human marker exactly when the body ends with the
    marker less its final space, which the cue then supplies. *)
Lemma prompt_HUMAN_free_iff (q : string) :
  occurrences HUMAN q = 0 ->
  occurrences HUMAN (PREAMBLE ++ q ++ RESPONSE_CUE) = 0 <->
  ends_with "### Human:" q = false.
Proof.
  intros Hq. apply occurrences_zero_iff in Hq. split.
  - intros Z. apply not_true_is_false. intros E.
    apply occurrences_zero_iff in Z. apply Z.
    apply ends_with_iff in E. destruct E as [a ->].
    exists (PREAMBLE ++ a), "### Response: ".
    rewrite !append_assoc. reflexivity.
  - intros E. apply occurrences_zero_iff.
    apply not_occurs_append;
      [exact HUMAN_not_in_PREAMBLE | | apply HUMAN_not_behind_PREAMBLE].
    apply not_occurs_append;
      [exact Hq | exact HUMAN_not_in_RESPONSE_CUE
       | now apply HUMAN_across_RESPONSE_CUE].
Qed.

Lemma prompt_ASSISTANT_free_iff (q : string) :
  occurrences ASSISTANT q = 0 ->
  occurrences ASSISTANT (PREAMBLE ++ q ++ RESPONSE_CUE) = 0 <->
  ends_with "### Assistant:" q = false.
Proof.
  intros Aq. apply occurrences_zero_iff in Aq. split.
  - intros Z. apply not_true_is_false. intros E.
    apply occurrences_zero_iff in Z. apply Z.
    apply ends_with_iff in E. destruct E as [a ->].
    exists (PREAMBLE ++ a), "### Response: ".
    rewrite !append_assoc. reflexivity.
  - intros E. apply occurrences_zero_iff.
    apply not_occurs_append;
      [exact ASSISTANT_not_in_PREAMBLE | | apply ASSISTANT_not_behind_PREAMBLE].
    apply not_occurs_append;
      [exact Aq | exact ASSISTANT_not_in_RESPONSE_CUE
       | now apply ASSISTANT_across_RESPONSE_CUE].
Qed.

(** C1, as the specification states it, fails: the record below has one
    human and one assistant marker, and the prompt [normalize] builds from
    it contains the human marker, completed by the space the response cue
    starts with. *)
Lemma normalize_leftover_marker :
  occurrences HUMAN "### Human: x### Human:### Assistant: r" = 1 /\
  occurrences ASSISTANT "### Human: x### Human:### Assistant: r" = 1 /\
  normalize "### Human: x### Human:### Assistant: r" =
    inr (mkExample (PREAMBLE ++ "x### Human:" ++ RESPONSE_CUE) "r") /\
  occurrences HUMAN (PREAMBLE ++ "x### Human:" ++ RESPONSE_CUE) = 1.
Proof. repeat split; vm_compute; reflexivity. Qed.

(** C1, amended: for a record [pre ++ HUMAN ++ q ++ ASSISTANT ++ r] whose
    parts [pre], [q] and [r] contain no marker, [normalize] returns the
    prompt [PREAMBLE ++ q ++ RESPONSE_CUE] and the response [r]; the
    response contains no marker, and the prompt contains none unless [q]
    ends with a marker less its final space. *)
Theorem normalize_one_pair_record (pre q r : string) :
  occurrences HUMAN pre = 0 -> occurrences ASSISTANT pre = 0 ->
  occurrences HUMAN q = 0 -> occurrences ASSISTANT q = 0 ->
  occurrences HUMAN r = 0 -> occurrences ASSISTANT r = 0 ->
  exists e,
    normalize (pre ++ HUMAN ++ q ++ ASSISTANT ++ r) = inr e /\
    prompt e = PREAMBLE ++ q ++ RESPONSE_CUE /\
    response e = r /\
    occurrences HUMAN (response e) = 0 /\
    occurrences ASSISTANT (response e) = 0 /\
    (occurrences HUMAN (prompt e) = 0 <-> ends_with "### Human:" q = false) /\
    (occurrences ASSISTANT (prompt e) = 0 <->
     ends_with "### Assistant:" q = false).
Proof.
  intros Hp Ap Hq Aq Hr Ar.
  exists (mkExample (PREAMBLE ++ q ++ RESPONSE_CUE) r).
  cbn [prompt response]. split.
  - rewrite (normalize_first_pair pre q r Hp Ap Hq Aq).
    rewrite (before_none ASSISTANT r), (before_none HUMAN r);
      [reflexivity | |]; now apply occurrences_zero_iff.
  - split; [reflexivity|]. split; [reflexivity|].
    split; [exact Hr|]. split; [exact Ar|].
    split; [exact (prompt_HUMAN_free_iff q Hq)
           | exact (prompt_ASSISTANT_free_iff q Aq)].
Qed.

Lemma normalize_one_pair_record_witness :
  (occurrences HUMAN "" = 0 /\ occurrences ASSISTANT "" = 0 /\
   occurrences HUMAN "Hi" = 0 /\ occurrences ASSISTANT "Hi" = 0 /\
   occurrences HUMAN "Hello" = 0 /\ occurrences ASSISTANT "Hello" = 0) /\
  exists e,
    normalize ("" ++ HUMAN ++ "Hi" ++ ASSISTANT ++ "Hello") = inr e /\
    prompt e = PREAMBLE ++ "Hi" ++ RESPONSE_CUE /\
    response e = "Hello" /\
    occurrences HUMAN (response e) = 0 /\
    occurrences ASSISTANT (response e) = 0 /\
    (occurrences HUMAN (prompt e) = 0 <->
     ends_with "### Human:" "Hi" = false) /\
    (occurrences ASSISTANT (prompt e) = 0 <->
     ends_with "### Assistant:" "Hi" = false).
Proof.
  split.
  - repeat split; reflexivity.
  - apply (normalize_one_pair_record "" "Hi" "Hello"); reflexivity.
Defined.

(* ================================================================== *)
(** * Further properties: [str.split] as the script uses it *)
(* ================================================================== *)

Lemma starts_with_extend (p x y : string) :
  starts_with p x = true -> starts_with p (x ++ y) = true.
Proof.
  intros H. apply starts_with_iff in H. destruct H as [t ->].
  apply starts_with_iff. exists (t ++ y). apply append_assoc.
Qed.

Lemma occurs_extend (sep x y : string) :
  occurs sep x -> occurs sep (x ++ y).
Proof.
  intros [a [b ->]]. exists a, (b ++ y). now rewrite !append_assoc.
Qed.

Lemma occurs_head_or_tail (sep : string) (c : ascii) (x : string) :
  occurs sep (String c x) ->
  starts_with sep (String c x) = true \/ occurs sep x.
Proof.
  intros [a [b E]]. destruct a as [|d a].
  - left. simpl in E. rewrite E. apply starts_with_append.
  - right. simpl in E. injection E as _ E. now exists a, b.
Qed.

(** The text in front of the leftmost occurrence holds no occurrence. *)
Lemma cut_front_free (sep s : string) :
  sep <> "" ->
  forall a b, cut sep s = Some (a, b) -> ~ occurs sep a.
Proof.
  intros Hs. induction s as [|c s IH]; intros a b C; rewrite cut_unfold in C.
  - destruct (starts_with sep "") eqn:E; [|discriminate].
    destruct sep; [now elim Hs | discriminate].
  - destruct (starts_with sep (String c s)) eqn:E.
    + injection C as <- _. intros [x [y O]].
      destruct x; [|discriminate]. destruct sep; [now elim Hs | discriminate].
    + destruct (cut sep s) as [[a' b']|] eqn:C'; [|discriminate].
      injection C as <- <-. intros O.
      destruct (occurs_head_or_tail sep c a' O) as [H | H].
      * apply cut_sound in C'. rewrite C' in E.
        change (String c (a' ++ sep ++ b')) with (String c a' ++ sep ++ b') in E.
        rewrite (starts_with_extend sep (String c a') _ H) in E. discriminate.
      * exact (IH a' b' eq_refl H).
Qed.

Lemma before_free (sep x : string) :
  sep <> "" -> ~ occurs sep (before sep x).
Proof.
  intros Hs. unfold before.
  destruct (cut sep x) as [[a b]|] eqn:C.
  - exact (cut_front_free sep x Hs a b C).
  - now apply cut_None_iff.
Qed.

Lemma before_keeps_free (p sep x : string) :
  ~ occurs p x -> ~ occurs p (before sep x).
Proof.
  intros N O. apply N.
  destruct (before_is_prefix sep x) as [t E]. rewrite E.
  now apply occurs_extend.
Qed.

Lemma pieces_join_fuel (sep : string) (n : nat) :
  sep <> "" ->
  forall s, length s <= n -> concat sep (pieces sep s) = s.
Proof.
  intros Hs. induction n as [|n IH]; intros s L;
    rewrite (pieces_unfold sep s Hs).
  - assert (s = "") by (apply length_zero; lia). subst s.
    now rewrite (cut_nonempty_empty sep Hs).
  - destruct (cut sep s) as [[a b]|] eqn:C; [|reflexivity].
    pose proof (cut_shorter sep s a b Hs C) as Lb.
    assert (J : concat sep (pieces sep b) = b) by (apply IH; lia).
    apply cut_sound in C.
    destruct (pieces sep b) as [|x l] eqn:P.
    + rewrite (pieces_unfold sep b Hs) in P.
      destruct (cut sep b) as [[u v]|]; discriminate.
    + cbn [concat]. cbn [concat] in J. rewrite J. now symmetry.
Qed.

Lemma pieces_free_fuel (sep : string) (n : nat) :
  sep <> "" ->
  forall s, length s <= n ->
            Forall (fun p => occurrences sep p = 0) (pieces sep s).
Proof.
  intros Hs. induction n as [|n IH]; intros s L;
    rewrite (pieces_unfold sep s Hs).
  - assert (s = "") by (apply length_zero; lia). subst s.
    rewrite (cut_nonempty_empty sep Hs). constructor; [|constructor].
    apply occurrences_zero_iff, cut_None_iff, cut_nonempty_empty, Hs.
  - destruct (cut sep s) as [[a b]|] eqn:C.
    + pose proof (cut_shorter sep s a b Hs C) as Lb.
      constructor; [|apply IH; lia].
      apply occurrences_zero_iff. exact (cut_front_free sep s Hs a b C).
    + constructor; [|constructor].
      now apply occurrences_zero_iff, cut_None_iff.
Qed.

(** X1: whatever [s.split(sep)] returns, joining the pieces with [sep]
    gives [s] back, and no piece contains [sep]. *)
Theorem split_join (s sep : string) (l : list string) :
  split s sep = inr l ->
  concat sep l = s /\ Forall (fun p => occurrences sep p = 0) l.
Proof.
  unfold split. intros H.
  destruct sep as [|c sep]; [discriminate|].
  apply inr_inj in H. subst l. split.
  - apply (pieces_join_fuel _ (length s)); [discriminate | lia].
  - apply (pieces_free_fuel _ (length s)); [discriminate | lia].
Qed.

Lemma split_join_witness :
  split "a, b, c" ", " = inr ["a"; "b"; "c"] /\
  (concat ", " ["a"; "b"; "c"] = "a, b, c" /\
   Forall (fun p => occurrences ", " p = 0) ["a"; "b"; "c"]).
Proof.
  split.
  - reflexivity.
  - apply (split_join "a, b, c" ", " ["a"; "b"; "c"]). reflexivity.
Defined.

(* ================================================================== *)
(** * Further properties: the extraction (lines 77-85) *)
(* ================================================================== *)

(** X2: [normalize] returns an example exactly for the records in which
    both markers occur, wherever they stand; no other condition on the
    record is checked. *)
Theorem normalize_succeeds_iff (s : string) :
  (exists e, normalize s = inr e) <->
  0 < occurrences HUMAN s /\ 0 < occurrences ASSISTANT s.
Proof.
  split.
  - intros [e H]. destruct (normalizable s) eqn:N.
    + unfold normalizable in N. apply andb_true_iff in N.
      destruct N as [N1 N2]. now apply Nat.ltb_lt in N1, N2.
    + rewrite (normalize_fails s N) in H. discriminate.
  - intros [H1 H2]. apply normalize_ok. unfold normalizable.
    apply andb_true_iff. split; now apply Nat.ltb_lt.
Qed.

(** X3: for every record, the response of the example is free of both
    markers. *)
Theorem response_marker_free (s : string) (e : Example) :
  normalize s = inr e ->
  occurrences HUMAN (response e) = 0 /\
  occurrences ASSISTANT (response e) = 0.
Proof.
  rewrite normalize_eq. intros H.
  destruct (cut HUMAN s) as [[a b]|]; [|discriminate].
  destruct (cut ASSISTANT s) as [[c d]|]; [|discriminate].
  apply inr_inj in H. subst e. cbn [response]. split.
  - apply occurrences_zero_iff, before_free, HUMAN_nonempty.
  - apply occurrences_zero_iff, before_keeps_free, before_free,
      ASSISTANT_nonempty.
Qed.

Lemma response_marker_free_witness :
  normalize "### Human: a### Assistant: b### Human: c### Assistant: d"
  = inr (mkExample (PREAMBLE ++ "a" ++ RESPONSE_CUE) "b") /\
  (occurrences HUMAN (response (mkExample (PREAMBLE ++ "a" ++ RESPONSE_CUE) "b"))
   = 0 /\
   occurrences ASSISTANT
     (response (mkExample (PREAMBLE ++ "a" ++ RESPONSE_CUE) "b")) = 0).
Proof.
  split.
  - reflexivity.
  - apply (response_marker_free
             "### Human: a### Assistant: b### Human: c### Assistant: d").
    reflexivity.
Defined.

(** X4: for every record, the prompt of the example is the preamble, an
    instruction body free of both markers, and the response cue. *)
Theorem prompt_body_marker_free (s : string) (e : Example) :
  normalize s = inr e ->
  exists body,
    prompt e = PREAMBLE ++ body ++ RESPONSE_CUE /\
    instruction_body s = inr body /\
    occurrences HUMAN body = 0 /\
    occurrences ASSISTANT body = 0.
Proof.
  rewrite normalize_eq, instruction_body_eq. intros H.
  destruct (cut HUMAN s) as [[a b]|]; [|discriminate].
  destruct (cut ASSISTANT s) as [[c d]|]; [|discriminate].
  apply inr_inj in H. subst e. cbn [prompt].
  exists (before ASSISTANT (before HUMAN b)).
  split; [reflexivity|]. split; [reflexivity|]. split.
  - apply occurrences_zero_iff, before_keeps_free, before_free,
      HUMAN_nonempty.
  - apply occurrences_zero_iff, before_free, ASSISTANT_nonempty.
Qed.

Lemma prompt_body_marker_free_witness :
  normalize "### Human: a### Human: b### Assistant: c"
  = inr (mkExample (PREAMBLE ++ "a" ++ RESPONSE_CUE) "c") /\
  exists body,
    prompt (mkExample (PREAMBLE ++ "a" ++ RESPONSE_CUE) "c")
    = PREAMBLE ++ body ++ RESPONSE_CUE /\
    instruction_body "### Human: a### Human: b### Assistant: c" = inr body /\
    occurrences HUMAN body = 0 /\
    occurrences ASSISTANT body = 0.
Proof.
  split.
  - reflexivity.
  - apply (prompt_body_marker_free "### Human: a### Human: b### Assistant: c").
    reflexivity.
Defined.

(** X5: the order of the turns is not checked.  In a record whose
    assistant turn [r] stands in front of its human turn [q], the prompt
    is built from [q] and the response is [r]. *)
Theorem normalize_reversed_turns (pre r q : string) :
  occurrences HUMAN pre = 0 -> occurrences ASSISTANT pre = 0 ->
  occurrences HUMAN r = 0 -> occurrences ASSISTANT r = 0 ->
  occurrences HUMAN q = 0 -> occurrences ASSISTANT q = 0 ->
  normalize (pre ++ ASSISTANT ++ r ++ HUMAN ++ q) =
  inr (mkExample (PREAMBLE ++ q ++ RESPONSE_CUE) r).
Proof.
  intros Hp Ap Hr Ar Hq Aq.
  apply occurrences_zero_iff in Hp, Ap, Hr, Ar, Hq, Aq.
  rewrite normalize_eq.
  rewrite (cut_at ASSISTANT pre _ ASSISTANT_unbordered Ap).
  assert (C : cut HUMAN (pre ++ ASSISTANT ++ r ++ HUMAN ++ q) =
              Some (pre ++ ASSISTANT ++ r, q)).
  { replace (pre ++ ASSISTANT ++ r ++ HUMAN ++ q)
      with ((pre ++ ASSISTANT ++ r) ++ HUMAN ++ q)
      by now rewrite !append_assoc.
    apply cut_at; [exact HUMAN_unbordered|].
    apply not_occurs_append; [exact Hp | | apply HUMAN_not_across_ASSISTANT].
    apply not_occurs_append;
      [exact HUMAN_not_in_ASSISTANT | exact Hr
       | apply HUMAN_not_behind_ASSISTANT]. }
  rewrite C.
  rewrite (before_none HUMAN q Hq), (before_none ASSISTANT q Aq).
  rewrite (before_skip ASSISTANT r _ Ar (ASSISTANT_not_across_HUMAN r q)).
  rewrite (before_skip ASSISTANT HUMAN q ASSISTANT_not_in_HUMAN
                       (ASSISTANT_not_behind_HUMAN q)).
  rewrite (before_none ASSISTANT q Aq).
  rewrite (before_at HUMAN r q HUMAN_unbordered Hr).
  reflexivity.
Qed.

Lemma normalize_reversed_turns_witness :
  (occurrences HUMAN "" = 0 /\ occurrences ASSISTANT "" = 0 /\
   occurrences HUMAN "yes" = 0 /\ occurrences ASSISTANT "yes" = 0 /\
   occurrences HUMAN "why" = 0 /\ occurrences ASSISTANT "why" = 0) /\
  normalize ("" ++ ASSISTANT ++ "yes" ++ HUMAN ++ "why") =
  inr (mkExample (PREAMBLE ++ "why" ++ RESPONSE_CUE) "yes").
Proof.
  split.
  - repeat split; reflexivity.
  - apply (normalize_reversed_turns "" "yes" "why"); reflexivity.
Defined.

(** X6: two human turns in a row.  The prompt is built from the first
    one and the response is the assistant turn that answers the second:
    the body ends at the next marker of either kind, the response is
    searched from the start of the record. *)
Theorem normalize_two_human_turns (pre a b c : string) :
  occurrences HUMAN pre = 0 -> occurrences ASSISTANT pre = 0 ->
  occurrences HUMAN a = 0 -> occurrences ASSISTANT a = 0 ->
  occurrences HUMAN b = 0 -> occurrences ASSISTANT b = 0 ->
  occurrences HUMAN c = 0 -> occurrences ASSISTANT c = 0 ->
  normalize (pre ++ HUMAN ++ a ++ HUMAN ++ b ++ ASSISTANT ++ c) =
  inr (mkExample (PREAMBLE ++ a ++ RESPONSE_CUE) c).
Proof.
  intros Hp Ap Ha Aa Hb Ab Hc Ac.
  apply occurrences_zero_iff in Hp, Ap, Ha, Aa, Hb, Ab, Hc, Ac.
  rewrite normalize_eq.
  rewrite (cut_at HUMAN pre _ HUMAN_unbordered Hp).
  assert (C : cut ASSISTANT
                  (pre ++ HUMAN ++ a ++ HUMAN ++ b ++ ASSISTANT ++ c) =
              Some (pre ++ HUMAN ++ a ++ HUMAN ++ b, c)).
  { replace (pre ++ HUMAN ++ a ++ HUMAN ++ b ++ ASSISTANT ++ c)
      with ((pre ++ HUMAN ++ a ++ HUMAN ++ b) ++ ASSISTANT ++ c)
      by now rewrite !append_assoc.
    apply cut_at; [exact ASSISTANT_unbordered|].
    apply not_occurs_append; [exact Ap | | apply ASSISTANT_not_across_HUMAN].
    apply not_occurs_append;
      [exact ASSISTANT_not_in_HUMAN | | apply ASSISTANT_not_behind_HUMAN].
    apply not_occurs_append; [exact Aa | | apply ASSISTANT_not_across_HUMAN].
    apply not_occurs_append;
      [exact ASSISTANT_not_in_HUMAN | exact Ab
       | apply ASSISTANT_not_behind_HUMAN]. }
  rewrite C.
  rewrite (before_at HUMAN a _ HUMAN_unbordered Ha).
  rewrite (before_none ASSISTANT a Aa).
  rewrite (before_none ASSISTANT c Ac), (before_none HUMAN c Hc).
  reflexivity.
Qed.

Lemma normalize_two_human_turns_witness :
  (occurrences HUMAN "" = 0 /\ occurrences ASSISTANT "" = 0 /\
   occurrences HUMAN "one" = 0 /\ occurrences ASSISTANT "one" = 0 /\
   occurrences HUMAN "two" = 0 /\ occurrences ASSISTANT "two" = 0 /\
   occurrences HUMAN "three" = 0 /\ occurrences ASSISTANT "three" = 0) /\
  normalize ("" ++ HUMAN ++ "one" ++ HUMAN ++ "two" ++ ASSISTANT ++ "three") =
  inr (mkExample (PREAMBLE ++ "one" ++ RESPONSE_CUE) "three").
Proof.
  split.
  - repeat split; reflexivity.
  - apply (normalize_two_human_turns "" "one" "two" "three"); reflexivity.
Defined.

(* ================================================================== *)
(** * Further properties: the loop and the tables (lines 72-108) *)
(* ================================================================== *)

Lemma loop_raises (texts : list string) :
  forall (x : exn) (st : acc),
    normalize_all texts = inl x -> exists st', loop st texts = Raised x st'.
Proof.
  induction texts as [|t texts IH]; intros x st H; simpl in H;
    [discriminate|].
  cbn [loop]. unfold loop_body.
  destruct (normalize t) as [y|e] eqn:N.
  - cbn [bind] in H. injection H as <-.
    unfold normalize in N.
    destruct (extract_prompt t) as [z|p]; [cbn [bind] in N|].
    + injection N as <-. now eexists.
    + cbn [bind] in N.
      destruct (extract_response t) as [z|r]; [|discriminate].
      cbn [bind] in N. injection N as <-. now eexists.
  - cbn [bind] in H.
    destruct (normalize_inv t e N) as [Hp Hr]. rewrite Hp, Hr.
    destruct (normalize_all texts) as [y|es] eqn:A; [|discriminate].
    cbn [bind] in H. injection H as <-. now apply IH.
Qed.

(** X7: on a table whose records all contain both markers, the loop of
    lines 72-85 ends normally, and its two lists hold, row by row, the
    prompt and the response [normalize] gives for the record of that
    row. *)
Theorem loop_collects (raw : Dataset) (texts : list string) :
  table_ok raw = true ->
  column raw "text" = inr texts ->
  forallb normalizable texts = true ->
  exists es,
    Forall2 (fun t e => normalize t = inr e) texts es /\
    extract_columns raw = inr (map prompt es, map response es) /\
    List.length es = num_rows raw.
Proof.
  intros Hok T G.
  destruct (normalize_all_ok texts G) as [es N].
  exists es. split; [now apply normalize_all_each|].
  split; [exact (extract_columns_spec raw texts es Hok T N)|].
  rewrite (normalize_all_length texts es N).
  exact (column_length raw "text" texts Hok T).
Qed.

Lemma loop_collects_witness :
  (table_ok [("text", ["### Human: a### Assistant: b"]); ("lang", ["en"])]
   = true /\
   column [("text", ["### Human: a### Assistant: b"]); ("lang", ["en"])]
          "text" = inr ["### Human: a### Assistant: b"] /\
   forallb normalizable ["### Human: a### Assistant: b"] = true) /\
  exists es,
    Forall2 (fun t e => normalize t = inr e)
            ["### Human: a### Assistant: b"] es /\
    extract_columns
      [("text", ["### Human: a### Assistant: b"]); ("lang", ["en"])]
    = inr (map prompt es, map response es) /\
    List.length es =
    num_rows [("text", ["### Human: a### Assistant: b"]); ("lang", ["en"])].
Proof.
  split.
  - repeat split; reflexivity.
  - apply (loop_collects
             [("text", ["### Human: a### Assistant: b"]); ("lang", ["en"])]
             ["### Human: a### Assistant: b"]);
      reflexivity.
Defined.

(** X8: one record without one of the markers stops the whole run with
    [IndexError]: no record is skipped and no table is built, whatever
    the first dataset is. *)
Theorem bad_record_stops_run (A raw : Dataset) (texts : list string) :
  table_ok raw = true ->
  column raw "text" = inr texts ->
  forallb normalizable texts = false ->
  extract_columns raw = inl IndexError /\
  normalize_dataset raw = inl IndexError /\
  mix A raw = inl IndexError.
Proof.
  intros Hok T G.
  pose proof (normalize_all_fails texts G) as N.
  assert (E : extract_columns raw = inl IndexError).
  { unfold extract_columns.
    rewrite <- (column_length raw "text" texts Hok T).
    rewrite (loop_range_eq raw texts [] _ T).
    destruct (loop_raises texts IndexError (mkAcc [] []) N) as [st' L].
    now rewrite L. }
  split; [exact E|].
  unfold mix, normalize_dataset. rewrite E. now split.
Qed.

Lemma bad_record_stops_run_witness :
  (table_ok [("text", ["### Human: a### Assistant: b"; "no markers"])]
   = true /\
   column [("text", ["### Human: a### Assistant: b"; "no markers"])] "text"
   = inr ["### Human: a### Assistant: b"; "no markers"] /\
   forallb normalizable ["### Human: a### Assistant: b"; "no markers"]
   = false) /\
  (extract_columns [("text", ["### Human: a### Assistant: b"; "no markers"])]
   = inl IndexError /\
   normalize_dataset
     [("text", ["### Human: a### Assistant: b"; "no markers"])]
   = inl IndexError /\
   mix (table_of [mkExample "P1" "R1"])
       [("text", ["### Human: a### Assistant: b"; "no markers"])]
   = inl IndexError).
Proof.
  split.
  - repeat split; reflexivity.
  - apply (bad_record_stops_run
             (table_of [mkExample "P1" "R1"])
             [("text", ["### Human: a### Assistant: b"; "no markers"])]
             ["### Human: a### Assistant: b"; "no markers"]);
      reflexivity.
Defined.

Lemma mem_prompt_response (n : string) :
  mem n ["prompt"; "response"] = true <-> n = "prompt" \/ n = "response".
Proof.
  rewrite mem_In. simpl. split.
  - intros [H | [H | []]]; [now left | now right].
  - intros [H | H]; [now left | now right; left].
Qed.

(** X9: the call of lines 95-101 cannot fail, on any table: every name
    it passes is a column of the table.  It keeps the columns named
    [prompt] or [response], in their order, and no other. *)
Theorem old_columns_removed (ds : Dataset) :
  exists kept,
    remove_columns ds (old_columns ds) = inr kept /\
    kept = filter (fun c => mem (fst c) ["prompt"; "response"]) ds /\
    forall c, In c kept <->
              In c ds /\ (fst c = "prompt" \/ fst c = "response").
Proof.
  eexists. split; [apply remove_old_columns|]. split; [reflexivity|].
  intros c. rewrite filter_In, mem_prompt_response. reflexivity.
Qed.

(** X10: a second dataset without rows stops the run: line 105 asks for
    row 0 of the reshaped table and raises [IndexError], so [mix] returns
    no table, whatever the first dataset is. *)
Theorem mix_empty (A raw : Dataset) :
  raw_ok raw = true ->
  column raw "text" = inr [] ->
  normalize_dataset raw = inr [("prompt", []); ("response", [])] /\
  mix A raw = inl IndexError.
Proof.
  intros R T. split.
  - exact (normalize_dataset_spec raw [] [] R T eq_refl).
  - exact (mix_no_rows A raw R T).
Qed.

Lemma mix_empty_witness :
  (raw_ok [("text", [])] = true /\
   column [("text", [])] "text" = inr []) /\
  (normalize_dataset [("text", [])] = inr [("prompt", []); ("response", [])] /\
   mix (table_of [mkExample "P1" "R1"]) [("text", [])] = inl IndexError).
Proof.
  split.
  - split; reflexivity.
  - apply (mix_empty (table_of [mkExample "P1" "R1"]) [("text", [])]);
      reflexivity.
Defined.

(* ================================================================== *)
(** * Further properties: the formatting function (lines 121-126) *)
(* ================================================================== *)

Lemma item_beyond (A : Type) (l : list A) (i : nat) :
  List.length l <= i -> item l i = inl IndexError.
Proof.
  intros L. unfold item.
  now rewrite (proj2 (nth_error_None l i) L).
Qed.

Lemma format_rows_columns (ps : list string) :
  forall (rs seen_p seen_r : list string),
    List.length seen_p = List.length seen_r ->
    List.length ps <= List.length rs ->
    format_rows (seen_p ++ ps)%list (seen_r ++ rs)%list
                (List.length seen_p) (List.length ps)
    = inr (map (fun pr => fst pr ++ LF ++ snd pr) (combine ps rs)).
Proof.
  induction ps as [|p ps IH]; intros rs seen_p seen_r Ls L; [reflexivity|].
  destruct rs as [|r rs]; [simpl in L; lia|].
  cbn [List.length format_rows combine map fst snd].
  rewrite item_middle. cbn [bind]. rewrite Ls, item_middle. cbn [bind].
  specialize (IH rs (seen_p ++ [p])%list (seen_r ++ [r])%list).
  rewrite <- !app_assoc, !length_app in IH. cbn [List.length app] in IH.
  rewrite !Nat.add_1_r, <- Ls in IH. rewrite <- Ls.
  rewrite IH; [reflexivity | reflexivity | simpl in L; lia].
Qed.

Lemma format_rows_short (ps : list string) :
  forall (rs seen_p seen_r : list string),
    List.length seen_p = List.length seen_r ->
    List.length rs < List.length ps ->
    format_rows (seen_p ++ ps)%list (seen_r ++ rs)%list
                (List.length seen_p) (List.length ps)
    = inl IndexError.
Proof.
  induction ps as [|p ps IH]; intros rs seen_p seen_r Ls L;
    [simpl in L; lia|].
  cbn [List.length format_rows].
  rewrite item_middle. cbn [bind].
  destruct rs as [|r rs].
  - rewrite app_nil_r, item_beyond by lia. reflexivity.
  - rewrite Ls, item_middle. cbn [bind].
    specialize (IH rs (seen_p ++ [p])%list (seen_r ++ [r])%list).
    rewrite <- !app_assoc, !length_app in IH. cbn [List.length app] in IH.
    rewrite !Nat.add_1_r, <- Ls in IH. rewrite <- Ls.
    rewrite IH; [reflexivity | reflexivity | simpl in L; lia].
Qed.

Lemma formatting_columns (batch : Dataset) (ps rs : list string) :
  column batch "prompt" = inr ps ->
  column batch "response" = inr rs ->
  List.length ps <= List.length rs ->
  formatting_prompts_func batch =
  inr (map (fun pr => fst pr ++ LF ++ snd pr) (combine ps rs)).
Proof.
  intros P R L. rewrite (formatting_prompts_func_columns batch ps rs P R).
  exact (format_rows_columns ps rs [] [] eq_refl L).
Qed.

(** X11: on any batch, the formatting function returns one text for each
    cell of the [prompt] column, the i-th being prompt i, a newline and
    response i; cells of the [response] column beyond the length of the
    [prompt] column are not read. *)
Theorem formatting_any_batch (batch : Dataset) (ps rs : list string) :
  column batch "prompt" = inr ps ->
  column batch "response" = inr rs ->
  List.length ps <= List.length rs ->
  exists texts,
    formatting_prompts_func batch = inr texts /\
    texts = map (fun pr => fst pr ++ LF ++ snd pr) (combine ps rs) /\
    List.length texts = List.length ps.
Proof.
  intros P R L. eexists. split; [|split; [reflexivity|]].
  - exact (formatting_columns batch ps rs P R L).
  - rewrite length_map, length_combine. lia.
Qed.

Lemma formatting_any_batch_witness :
  (column [("response", ["r1"; "r2"; "r3"]); ("id", ["7"; "8"; "9"]);
           ("prompt", ["p1"; "p2"])] "prompt" = inr ["p1"; "p2"] /\
   column [("response", ["r1"; "r2"; "r3"]); ("id", ["7"; "8"; "9"]);
           ("prompt", ["p1"; "p2"])] "response" = inr ["r1"; "r2"; "r3"] /\
   List.length ["p1"; "p2"] <= List.length ["r1"; "r2"; "r3"]) /\
  exists texts,
    formatting_prompts_func
      [("response", ["r1"; "r2"; "r3"]); ("id", ["7"; "8"; "9"]);
       ("prompt", ["p1"; "p2"])] = inr texts /\
    texts = map (fun pr => fst pr ++ LF ++ snd pr)
                (combine ["p1"; "p2"] ["r1"; "r2"; "r3"]) /\
    List.length texts = List.length ["p1"; "p2"].
Proof.
  split.
  - split; [reflexivity | split; [reflexivity | simpl; lia]].
  - apply (formatting_any_batch
             [("response", ["r1"; "r2"; "r3"]); ("id", ["7"; "8"; "9"]);
              ("prompt", ["p1"; "p2"])]
             ["p1"; "p2"] ["r1"; "r2"; "r3"]);
      [reflexivity | reflexivity | simpl; lia].
Defined.

(** X12: a [response] column shorter than the [prompt] column makes the
    formatting function fail with [IndexError]; it returns no partial
    list. *)
Theorem formatting_short_response (batch : Dataset) (ps rs : list string) :
  column batch "prompt" = inr ps ->
  column batch "response" = inr rs ->
  List.length rs < List.length ps ->
  formatting_prompts_func batch = inl IndexError.
Proof.
  intros P R L. rewrite (formatting_prompts_func_columns batch ps rs P R).
  exact (format_rows_short ps rs [] [] eq_refl L).
Qed.

Lemma formatting_short_response_witness :
  (column [("prompt", ["p1"; "p2"]); ("response", ["r1"])] "prompt"
   = inr ["p1"; "p2"] /\
   column [("prompt", ["p1"; "p2"]); ("response", ["r1"])] "response"
   = inr ["r1"] /\
   List.length ["r1"] < List.length ["p1"; "p2"]) /\
  formatting_prompts_func [("prompt", ["p1"; "p2"]); ("response", ["r1"])]
  = inl IndexError.
Proof.
  split.
  - split; [reflexivity | split; [reflexivity | simpl; lia]].
  - apply (formatting_short_response
             [("prompt", ["p1"; "p2"]); ("response", ["r1"])]
             ["p1"; "p2"] ["r1"]);
      [reflexivity | reflexivity | simpl; lia].
Defined.

Lemma column_error (ds : Dataset) (name : string) (x : exn) :
  column ds name = inl x -> x = KeyError.
Proof.
  induction ds as [|[n c] ds IH]; simpl; intros H.
  - now injection H.
  - destruct (String.eqb n name); [discriminate | now apply IH].
Qed.

(** X13: on a batch without a [response] column the formatting function
    fails with [KeyError] when the [prompt] column is missing too or has
    a cell; when the [prompt] column is empty, the loop body never runs,
    the [response] column is never looked up, and the result is the empty
    list. *)
Theorem formatting_missing_column (batch : Dataset) :
  column batch "response" = inl KeyError ->
  formatting_prompts_func batch =
  match column batch "prompt" with
  | inr [] => inr []
  | _ => inl KeyError
  end.
Proof.
  intros R. unfold formatting_prompts_func.
  destruct (column batch "prompt") as [x|ps] eqn:P.
  - now rewrite (column_error batch "prompt" x P).
  - cbn [bind]. destruct ps as [|p ps]; [reflexivity|].
    cbn [List.length format_loop]. rewrite P. cbn [bind item nth_error].
    now rewrite R.
Qed.

Lemma formatting_missing_column_witness :
  column [("prompt", ["p1"])] "response" = inl KeyError /\
  formatting_prompts_func [("prompt", ["p1"])] =
  match column [("prompt", ["p1"])] "prompt" with
  | inr [] => inr []
  | _ => inl KeyError
  end.
Proof.
  split.
  - reflexivity.
  - apply (formatting_missing_column [("prompt", ["p1"])]). reflexivity.
Defined.

Lemma LF_unbordered : unbordered LF = true.
Proof. reflexivity. Qed.

(** X14: the newline separates the two fields again when the prompt
    contains no newline: cutting the formatted text at its first newline
    gives back [prompt] and [response], whatever the response holds. *)
Theorem format_round_trip (e : Example) :
  occurrences LF (prompt e) = 0 ->
  cut LF (format e) = Some (prompt e, response e).
Proof.
  intros H. apply occurrences_zero_iff in H. unfold format.
  exact (cut_at LF (prompt e) (response e) LF_unbordered H).
Qed.

Lemma format_round_trip_witness :
  occurrences LF (prompt (mkExample "P1" ("R1" ++ LF ++ "more"))) = 0 /\
  cut LF (format (mkExample "P1" ("R1" ++ LF ++ "more")))
  = Some (prompt (mkExample "P1" ("R1" ++ LF ++ "more")),
          response (mkExample "P1" ("R1" ++ LF ++ "more"))).
Proof.
  split.
  - reflexivity.
  - apply (format_round_trip (mkExample "P1" ("R1" ++ LF ++ "more"))).
    reflexivity.
Defined.

(** X15: formatting the table [mix] returns gives the texts of the first
    dataset followed by the texts of the normalised records of the
    second, one text for every row. *)
Theorem formatting_after_mix (A B : Dataset) (texts : list string) :
  column_names A = ["prompt"; "response"] ->
  table_ok A = true ->
  raw_ok B = true ->
  column B "text" = inr texts ->
  0 < num_rows B ->
  forallb normalizable texts = true ->
  exists D a es,
    mix A B = inr D /\
    examples A = inr a /\
    Forall2 (fun t e => normalize t = inr e) texts es /\
    formatting_prompts_func D = inr (map format a ++ map format es)%list /\
    List.length (map format a ++ map format es)%list = num_rows A + num_rows B.
Proof.
  intros SA TA R T Z G.
  destruct (two_columns A SA) as [pa [ra ->]].
  destruct (normalize_all_ok texts G) as [es N].
  assert (L : List.length pa = List.length ra).
  { unfold table_ok in TA. cbn [forallb snd num_rows] in TA.
    apply andb_true_iff in TA. destruct TA as [_ TA].
    apply andb_true_iff in TA. destruct TA as [TA _].
    apply Nat.eqb_eq in TA. now symmetry. }
  pose (a := map (fun pr => mkExample (fst pr) (snd pr)) (combine pa ra)).
  assert (La : List.length a = List.length pa).
  { unfold a. rewrite length_map, length_combine. lia. }
  destruct (raw_ok_inv B R) as [Hok _].
  eexists. exists a, es.
  split; [exact (mix_spec pa ra B texts es R T N Z)|].
  split; [reflexivity|].
  split; [now apply normalize_all_each|]. split.
  - rewrite (formatting_columns
               [("prompt", (pa ++ map prompt es)%list);
                ("response", (ra ++ map response es)%list)]
               (pa ++ map prompt es)%list (ra ++ map response es)%list
               eq_refl eq_refl)
      by (rewrite !length_app, !length_map; lia).
    f_equal.
    rewrite (combine_append _ _ pa _ ra _ L), map_app. f_equal.
    + unfold a. rewrite map_map. reflexivity.
    + rewrite <- (rows_of_columns es) at 3. rewrite map_map. reflexivity.
  - rewrite length_app, !length_map, La. cbn [num_rows].
    rewrite (normalize_all_length texts es N).
    now rewrite (column_length B "text" texts Hok T).
Qed.

Lemma formatting_after_mix_witness :
  (column_names (table_of [mkExample "P1" "R1"]) = ["prompt"; "response"] /\
   table_ok (table_of [mkExample "P1" "R1"]) = true /\
   raw_ok [("text", ["### Human: a### Assistant: b"])] = true /\
   column [("text", ["### Human: a### Assistant: b"])] "text"
   = inr ["### Human: a### Assistant: b"] /\
   0 < num_rows [("text", ["### Human: a### Assistant: b"])] /\
   forallb normalizable ["### Human: a### Assistant: b"] = true) /\
  exists D a es,
    mix (table_of [mkExample "P1" "R1"])
        [("text", ["### Human: a### Assistant: b"])] = inr D /\
    examples (table_of [mkExample "P1" "R1"]) = inr a /\
    Forall2 (fun t e => normalize t = inr e)
            ["### Human: a### Assistant: b"] es /\
    formatting_prompts_func D = inr (map format a ++ map format es)%list /\
    List.length (map format a ++ map format es)%list =
    num_rows (table_of [mkExample "P1" "R1"]) +
    num_rows [("text", ["### Human: a### Assistant: b"])].
Proof.
  assert (Z : 0 < num_rows [("text", ["### Human: a### Assistant: b"])])
    by (simpl; lia).
  split.
  - split; [reflexivity|]. split; [reflexivity|]. split; [reflexivity|].
    split; [reflexivity|]. split; [exact Z | reflexivity].
  - apply (formatting_after_mix
             (table_of [mkExample "P1" "R1"])
             [("text", ["### Human: a### Assistant: b"])]
             ["### Human: a### Assistant: b"]);
      first [reflexivity | exact Z].
Defined.

(* ================================================================== *)
(** * Further properties: the other way the loop fails *)
(* ================================================================== *)

Lemma loop_body_first_line (st : acc) (s : string) :
  occurrences HUMAN s = 0 -> loop_body st s = Raised IndexError st.
Proof.
  intros H. apply occurrences_zero_iff, cut_None_iff in H.
  unfold loop_body. now rewrite extract_prompt_eq, H.
Qed.

(** X16: when the loop reaches a record without the human marker, it
    stops with [IndexError] at line 77, before anything of that record is
    appended: both lists hold one entry for each earlier record and are
    equally long. *)
Theorem loop_failure_at_prompt (ds : Dataset) (good : list string)
        (s : string) (rest : list string) :
  table_ok ds = true ->
  column ds "text" = inr (good ++ s :: rest)%list ->
  forallb normalizable good = true ->
  occurrences HUMAN s = 0 ->
  exists st,
    loop_range ds (mkAcc [] []) 0 (num_rows ds) = Raised IndexError st /\
    List.length (prompts st) = List.length good /\
    List.length (responses st) = List.length good.
Proof.
  intros Hok T Hg Hh.
  rewrite <- (column_length ds "text" _ Hok T).
  rewrite (loop_range_eq ds _ [] _ T).
  destruct (normalize_all_ok good Hg) as [es Hes].
  pose proof (normalize_all_length good es Hes) as L.
  rewrite loop_app, (loop_ok good es _ Hes). cbn [loop app].
  rewrite (loop_body_first_line _ s Hh).
  eexists. split; [reflexivity|].
  cbn [prompts responses app]. rewrite !length_map. now split.
Qed.

Lemma loop_failure_at_prompt_witness :
  (table_ok [("text", ["### Human: a### Assistant: b"; "### Assistant: zz"])]
   = true /\
   column [("text", ["### Human: a### Assistant: b"; "### Assistant: zz"])]
          "text"
   = inr (["### Human: a### Assistant: b"] ++ "### Assistant: zz" :: [])%list /\
   forallb normalizable ["### Human: a### Assistant: b"] = true /\
   occurrences HUMAN "### Assistant: zz" = 0) /\
  exists st,
    loop_range [("text", ["### Human: a### Assistant: b";
                          "### Assistant: zz"])]
               (mkAcc [] []) 0
               (num_rows [("text", ["### Human: a### Assistant: b";
                                    "### Assistant: zz"])])
    = Raised IndexError st /\
    List.length (prompts st) = List.length ["### Human: a### Assistant: b"] /\
    List.length (responses st) = List.length ["### Human: a### Assistant: b"].
Proof.
  split.
  - repeat split; reflexivity.
  - apply (loop_failure_at_prompt
             [("text", ["### Human: a### Assistant: b"; "### Assistant: zz"])]
             ["### Human: a### Assistant: b"] "### Assistant: zz" []);
      reflexivity.
Defined.
